(** * Chunk boundaries of [cs336_basics/pretokenization_example.py]

    A shallow embedding of [find_chunk_boundaries] and of the pieces of the
    Python runtime it touches (a binary file handle, [bytes.find], list
    indexing, [set] and [sorted]), followed by the properties of the
    boundary sequence it returns. *)

From Stdlib Require Import ZArith Lia Strings.Byte Strings.String.
From stdpp Require Import base decidable option list list_numbers sorting gmap.

Local Open Scope Z_scope.

(** ** Python values and exceptions *)

Abbreviation bytes := (list byte).

#[global] Instance byte_eq_decision : EqDecision byte := byte_eq_dec.

(** The third argument of [find_chunk_boundaries] is only annotated as
    [bytes]; at run time any object can arrive. *)
Inductive pyobj : Type :=
  | PyBytes (b : bytes)
  | PyStr (s : string)
  | PyInt (n : Z)
  | PyNone.

Inductive exn : Type :=
  | AssertionError (msg : string)
  | ZeroDivisionError
  | IndexError
  | OSError.

(** ** The file handle

    A [BinaryIO] opened on a regular file: its bytes, the current position,
    and (as a ghost field) the calls made on it so far, oldest first. *)

Inductive whence : Type := SEEK_SET | SEEK_CUR | SEEK_END.

Inductive io_call : Type :=
  | CallSeek (offset : Z) (w : whence)
  | CallTell
  | CallRead (n : Z).

Record BinaryIO : Type := mkBinaryIO {
  contents : bytes;
  position : Z;
  calls : list io_call
}.

Definition file_length (h : BinaryIO) : Z := Z.of_nat (length (contents h)).

(** ** Computations on a handle

    A call either returns, raises, or (for the [while True] loop only) runs
    out of the fuel the model gives it.  In each case the handle keeps the
    effects performed so far. *)

Inductive outcome (A : Type) : Type :=
  | Return (a : A)
  | Raise (e : exn)
  | OutOfFuel.
Arguments Return {A} a.
Arguments Raise {A} e.
Arguments OutOfFuel {A}.

Definition io (A : Type) : Type := BinaryIO → outcome A * BinaryIO.

#[global] Instance io_ret : MRet io := λ A a h, (Return a, h).

#[global] Instance io_bind : MBind io := λ A B k m h,
  match m h with
  | (Return a, h') => k a h'
  | (Raise e, h') => (Raise e, h')
  | (OutOfFuel, h') => (OutOfFuel, h')
  end.

Definition raise {A} (e : exn) : io A := λ h, (Raise e, h).

Definition out_of_fuel {A} : io A := λ h, (OutOfFuel, h).

Definition log (c : io_call) (h : BinaryIO) : BinaryIO :=
  mkBinaryIO (contents h) (position h) (calls h ++ [c]).

Definition set_position (p : Z) (h : BinaryIO) : BinaryIO :=
  mkBinaryIO (contents h) p (calls h).

(** [file.seek(offset, whence)]: a negative target is refused by the
    operating system, a target past the end is allowed. *)
Definition seek (offset : Z) (w : whence) : io Z := λ h,
  let base := match w with
              | SEEK_SET => 0
              | SEEK_CUR => position h
              | SEEK_END => file_length h
              end in
  let h' := log (CallSeek offset w) h in
  if decide (base + offset < 0) then (Raise OSError, h')
  else (Return (base + offset), set_position (base + offset) h').

(** [file.tell()] *)
Definition tell : io Z := λ h, (Return (position h), log CallTell h).

(** [file.read(n)]: the next [n] bytes, fewer at the end of the file, all
    the remaining ones when [n] is negative. *)
Definition read (n : Z) : io bytes := λ h,
  let rest := drop (Z.to_nat (position h)) (contents h) in
  let data := if decide (n < 0) then rest else take (Z.to_nat n) rest in
  (Return data,
   set_position (position h + Z.of_nat (length data)) (log (CallRead n) h)).

(** ** Built-ins *)

(** [a // b] *)
Definition floordiv (a b : Z) : io Z :=
  if decide (b = 0) then raise ZeroDivisionError else mret (a `div` b).

(** [range(a, b)] *)
Definition range (a b : Z) : list Z := seqZ a (b - a).

(** [len(l)] *)
Definition len {A} (l : list A) : Z := Z.of_nat (length l).

(** The slot a Python index denotes: negative indices count from the end. *)
Definition py_index {A} (l : list A) (i : Z) : option nat :=
  let j := if decide (i < 0) then i + len l else i in
  if decide (0 ≤ j < len l) then Some (Z.to_nat j) else None.

(** [l[i]] *)
Definition getitem {A} (l : list A) (i : Z) : io A :=
  match py_index l i ≫= (l !!.) with
  | Some x => mret x
  | None => raise IndexError
  end.

(** [l[i] = v] *)
Definition setitem {A} (l : list A) (i : Z) (v : A) : io (list A) :=
  match py_index l i with
  | Some j => mret (<[j:=v]> l)
  | None => raise IndexError
  end.

(** [chunk.find(sub)]: the lowest index at which [sub] starts in [chunk],
    -1 when there is none. *)
Fixpoint find_from (sub chunk : bytes) (i : Z) : Z :=
  if decide (sub `prefix_of` chunk) then i
  else match chunk with
       | [] => -1
       | _ :: rest => find_from sub rest (i + 1)
       end.

Definition find (chunk sub : bytes) : Z := find_from sub chunk 0.

(** [set(l)] and [sorted(s)] *)
Definition set (l : list Z) : gset Z := list_to_set l.

Definition sorted (s : gset Z) : list Z := merge_sort Z.le (elements s).

(** [for x in xs: body], threading the loop's variables [s] *)
Fixpoint for_each {A S} (xs : list A) (body : S → A → io S) (s : S) : io S :=
  match xs with
  | [] => mret s
  | x :: xs => s' ← body s x; for_each xs body s'
  end.

(** ** [find_chunk_boundaries] *)

Definition mini_chunk_size : Z := 4096.

(** The [while True] loop of one boundary [bi].  [fuel] bounds the number
    of iterations. *)
Fixpoint while_True (fuel : nat) (file_size : Z) (split_special_token : bytes)
    (bi : Z) (chunk_boundaries : list Z) (initial_position : Z) : io (list Z) :=
  match fuel with
  | O => out_of_fuel
  | S fuel =>
      mini_chunk ← read mini_chunk_size;
      if decide (mini_chunk = []) then
        setitem chunk_boundaries bi file_size
      else
        let found_at := find mini_chunk split_special_token in
        if decide (found_at ≠ -1) then
          setitem chunk_boundaries bi (initial_position + found_at)
        else
          while_True fuel file_size split_special_token bi chunk_boundaries
            (initial_position + mini_chunk_size)
  end.

(** The body of [for bi in range(1, len(chunk_boundaries) - 1)] *)
Definition adjust (fuel : nat) (file_size : Z) (split_special_token : bytes)
    (chunk_boundaries : list Z) (bi : Z) : io (list Z) :=
  initial_position ← getitem chunk_boundaries bi;
  _ ← seek initial_position SEEK_SET;
  while_True fuel file_size split_special_token bi chunk_boundaries
    initial_position.

(** The initial guesses: lines 42 to 49 *)
Definition initial_guesses (file_size desired_num_chunks : Z) : io (list Z) :=
  chunk_size ← floordiv file_size desired_num_chunks;
  let chunk_boundaries :=
    (λ i, i * chunk_size) <$> range 0 (desired_num_chunks + 1) in
  setitem chunk_boundaries (-1) file_size.

Definition find_chunk_boundaries_fuel (fuel : nat) (desired_num_chunks : Z)
    (split_special_token : pyobj) : io (list Z) :=
  match split_special_token with
  | PyBytes sep =>
      _ ← seek 0 SEEK_END;
      file_size ← tell;
      _ ← seek 0 SEEK_SET;
      chunk_boundaries ← initial_guesses file_size desired_num_chunks;
      chunk_boundaries ←
        for_each (range 1 (len chunk_boundaries - 1))
          (adjust fuel file_size sep) chunk_boundaries;
      mret (sorted (set chunk_boundaries))
  | _ => raise (AssertionError "Must represent special token as a bytestring")
  end.

(** Every iteration of the loop that does not leave it has read at least
    one byte, so one more iteration than the file has bytes is never
    reached: [find_chunk_boundaries] runs the loops with that bound. *)
Definition find_chunk_boundaries (desired_num_chunks : Z)
    (split_special_token : pyobj) : io (list Z) := λ file,
  find_chunk_boundaries_fuel (S (length (contents file))) desired_num_chunks
    split_special_token file.

(** ** Vocabulary of the properties *)

(** [sub] starts at offset [i] of [data]. *)
Definition occurs_at (data sub : bytes) (i : Z) : Prop :=
  0 ≤ i ≤ len data ∧ sub `prefix_of` drop (Z.to_nat i) data.

#[global] Instance occurs_at_dec data sub i : Decision (occurs_at data sub i).
Proof. unfold occurs_at. apply _. Defined.

(** All the offsets of [data] at which [sub] starts, ascending *)
Definition occurrences (data sub : bytes) : list Z :=
  filter (occurs_at data sub) (seqZ 0 (len data + 1)).

(** What [read mini_chunk_size] returns with the handle at offset [p] *)
Definition window (data : bytes) (p : Z) : bytes :=
  take (Z.to_nat mini_chunk_size) (drop (Z.to_nat p) data).

(** The loop of one boundary seen from outside: started at the guess [p] it
    lands on [r]. *)
Inductive lands (data sub : bytes) (file_size : Z) : Z → Z → Prop :=
  | lands_eof p :
      window data p = [] →
      lands data sub file_size p file_size
  | lands_found p :
      window data p ≠ [] →
      find (window data p) sub ≠ -1 →
      lands data sub file_size p (p + find (window data p) sub)
  | lands_next p r :
      window data p ≠ [] →
      find (window data p) sub = -1 →
      lands data sub file_size (p + mini_chunk_size) r →
      lands data sub file_size p r.

(** The handle is open on [data] and its next read returns the bytes at
    offset [p]. *)
Definition at_offset (data : bytes) (h : BinaryIO) (p : Z) : Prop :=
  0 ≤ p ∧ 0 ≤ position h ∧ contents h = data
  ∧ drop (Z.to_nat (position h)) data = drop (Z.to_nat p) data.

(** The handle once the file size has been measured: lines 36 to 40 *)
Definition rewound (h : BinaryIO) : BinaryIO :=
  mkBinaryIO (contents h) 0
    (calls h ++ [CallSeek 0 SEEK_END; CallTell; CallSeek 0 SEEK_SET]).

(** [cb] is the list of boundaries at the end of the [for] loop: the two
    ends are 0 and the file size, and each interior entry is where the loop
    lands from its evenly spaced guess. *)
Definition adjusted (data sub : bytes) (n : Z) (cb : list Z) : Prop :=
  len cb = n + 1
  ∧ cb !! 0%nat = Some 0
  ∧ cb !! Z.to_nat n = Some (len data)
  ∧ ∀ i, 1 ≤ i < n →
      ∃ r, cb !! Z.to_nat i = Some r
           ∧ lands data sub (len data) (i * (len data `div` n)) r.

(** An occurrence of length [n] at offset [p] lies across the end of one of
    the windows read from the guess [guess]. *)
Definition straddles (guess p n : Z) : Prop :=
  ∃ j, 0 ≤ j ∧ p < guess + (j + 1) * mini_chunk_size < p + n.

Definition is_bytes (o : pyobj) : bool :=
  match o with PyBytes _ => true | _ => false end.

(** A handle freshly opened on [data] *)
Definition open (data : bytes) : BinaryIO := mkBinaryIO data 0 [].

(** The files of the scenarios *)
Definition X : byte := "X"%byte.

Definition filler : byte := "a"%byte.

Definition hundred : bytes :=
  replicate 24 filler ++ [X] ++ replicate 26 filler ++ [X]
    ++ replicate 48 filler.

Definition open_close : bytes := ["<"%byte; ">"%byte].

Definition two_windows : bytes :=
  replicate (Z.to_nat 8192) filler ++ open_close.

(** ** The usage block: lines 103 to 133 *)

(** ["<|endoftext|>".encode("utf-8")]: the text is ASCII, one byte a
    character. *)
Definition endoftext : bytes := list_byte_of_string "<|endoftext|>".

(** [l[:-1]] and [l[1:]] *)
Definition all_but_last {A} (l : list A) : list A := take (length l - 1) l.

Definition from_second {A} (l : list A) : list A := drop 1 l.

Section usage.
(** [decode] stands for [.decode("utf-8", errors="ignore")], whatever the
    text type [str] is. *)
Context {str : Type} (decode : bytes → str).

(** The [for] loop over [zip(boundaries[:-1], boundaries[1:])]; [chunks]
    collects the successive values of [chunk]. *)
Definition read_chunks (boundaries : list Z) : io (list str) :=
  for_each (zip (all_but_last boundaries) (from_second boundaries))
    (λ chunks '(start, end_),
       _ ← seek start SEEK_SET;
       data ← read (end_ - start);
       mret (chunks ++ [decode data]))
    [].

(** The body of the [with] block, on the handle [f] *)
Definition usage (num_processes : Z) : io (list str) :=
  boundaries ← find_chunk_boundaries num_processes (PyBytes endoftext);
  read_chunks boundaries.
End usage.

(** ** Vocabulary of the further properties *)

(** [data[s:e]], for [0 <= s <= e] *)
Definition slice (data : bytes) (s e : Z) : bytes :=
  take (Z.to_nat (e - s)) (drop (Z.to_nat s) data).

(** The bytes between consecutive boundaries *)
Definition pieces (data : bytes) (bs : list Z) : list bytes :=
  (λ p, slice data p.1 p.2) <$> zip (all_but_last bs) (from_second bs).

(** The first offset at or after [g] at which [sub] starts *)
Definition nearest_occurrence (data sub : bytes) (g : Z) : option Z :=
  snd <$> list_find (occurs_at data sub) (seqZ g (len data + 1 - g)).

(** The first byte of [sub] occurs nowhere else in it, so that two
    occurrences of [sub] never overlap. *)
Definition head_unique (sub : bytes) : Prop :=
  match sub with
  | [] => False
  | b :: rest => b ∉ rest
  end.

#[global] Instance head_unique_dec sub : Decision (head_unique sub).
Proof. destruct sub; simpl; apply _. Defined.

(** A file without any "X" *)
Definition plain : bytes := replicate 100 filler.

(** Three documents, each opened by the separator *)
Definition corpus : bytes :=
  endoftext ++ replicate 30 filler ++ endoftext ++ replicate 40 filler
    ++ endoftext ++ replicate 20 filler.

(** * Facts about the built-ins *)

Section sorted_set.
Implicit Types l : list Z.

Lemma elem_of_sorted_set l x : x ∈ sorted (set l) ↔ x ∈ l.
Proof.
  unfold sorted, set. rewrite merge_sort_Permutation, elem_of_elements.
  apply elem_of_list_to_set.
Qed.

Lemma NoDup_sorted_set l : NoDup (sorted (set l)).
Proof.
  unfold sorted. rewrite merge_sort_Permutation. apply NoDup_elements.
Qed.

Lemma Sorted_le_sorted_set l : StronglySorted Z.le (sorted (set l)).
Proof. apply (StronglySorted_merge_sort Z.le). Qed.

Lemma StronglySorted_le_lt l :
  StronglySorted Z.le l → NoDup l → StronglySorted Z.lt l.
Proof.
  induction 1 as [|x l _ IH Hx]; intros Hnd; constructor.
  - apply IH. by apply NoDup_cons in Hnd as [_ ?].
  - apply NoDup_cons in Hnd as [Hnotin _].
    rewrite Forall_forall in Hx |- *. intros y Hy.
    specialize (Hx y Hy). assert (x ≠ y) by (intros ->; done). lia.
Qed.

Lemma sorted_set_strict l : StronglySorted Z.lt (sorted (set l)).
Proof.
  apply StronglySorted_le_lt; auto using Sorted_le_sorted_set, NoDup_sorted_set.
Qed.

Lemma length_sorted_set l : (length (sorted (set l)) ≤ length l)%nat.
Proof.
  apply submseteq_length, NoDup_submseteq; [apply NoDup_sorted_set|].
  intros x. by rewrite elem_of_sorted_set.
Qed.

(** A strictly sorted list begins with its least element ... *)
Lemma sorted_head l lo :
  StronglySorted Z.lt l → lo ∈ l → (∀ x, x ∈ l → lo ≤ x) → head l = Some lo.
Proof.
  intros Hs Hin Hlo. destruct Hs as [|x l Hs Hx]; [by apply elem_of_nil in Hin|].
  simpl. f_equal. apply elem_of_cons in Hin as [->|Hin]; [done|].
  rewrite Forall_forall in Hx. specialize (Hx lo Hin).
  specialize (Hlo x (list_elem_of_here _ _)). lia.
Qed.

(** ... and ends with its greatest. *)
Lemma sorted_last l hi :
  StronglySorted Z.lt l → hi ∈ l → (∀ x, x ∈ l → x ≤ hi) → last l = Some hi.
Proof.
  induction 1 as [|x l Hs IH Hx]; intros Hin Hhi; [by apply elem_of_nil in Hin|].
  destruct l as [|y l].
  - apply list_elem_of_singleton in Hin as ->. done.
  - change (last (x :: y :: l)) with (last (y :: l)). apply IH.
    + apply elem_of_cons in Hin as [->|Hin]; [|done].
      rewrite Forall_forall in Hx.
      specialize (Hx y (list_elem_of_here _ _)).
      specialize (Hhi y (list_elem_of_further _ _ _ (list_elem_of_here _ _))). lia.
    + intros z Hz. apply Hhi. by apply list_elem_of_further.
Qed.

(** Two strictly sorted lists with the same elements are the same list. *)
Lemma sorted_set_unique l l' :
  StronglySorted Z.lt l' → (∀ x, x ∈ l' ↔ x ∈ l) → sorted (set l) = l'.
Proof.
  intros Hs Hel.
  apply (StronglySorted_unique_strong Z.lt); [intros; lia| |done|].
  - apply sorted_set_strict.
  - apply NoDup_Permutation.
    + apply NoDup_sorted_set.
    + clear Hel. induction Hs as [|x l'' _ IH Hx]; constructor; [|done].
      rewrite Forall_forall in Hx. intros Hin. specialize (Hx x Hin). lia.
    + intros x. by rewrite elem_of_sorted_set, Hel.
Qed.
End sorted_set.

Lemma mini_chunk_size_eq : mini_chunk_size = 4096.
Proof. reflexivity. Qed.

(** Arithmetic over lengths and the window size *)
Ltac arith :=
  pose proof mini_chunk_size_eq; unfold file_length, len in *; lia.

Section find_facts.
Implicit Types sub chunk data : bytes.

Lemma prefix_of_take sub chunk n :
  sub `prefix_of` take n chunk ↔ (length sub ≤ n)%nat ∧ sub `prefix_of` chunk.
Proof.
  split.
  - intros Hp. split.
    + apply prefix_length in Hp. rewrite length_take in Hp. lia.
    + etrans; [done|apply prefix_take].
  - intros [Hn [t ->]]. exists (take (n - length sub) t).
    by rewrite take_app_ge by lia.
Qed.

(** [find_from] answers -1 when no suffix of the chunk begins with [sub],
    and otherwise counts the bytes before the first one that does. *)
Lemma find_from_cases sub chunk i :
  (find_from sub chunk i = -1
   ∧ ∀ j, (j ≤ length chunk)%nat → ¬ sub `prefix_of` drop j chunk)
  ∨ ∃ j : nat,
      find_from sub chunk i = i + Z.of_nat j
      ∧ (j ≤ length chunk)%nat
      ∧ sub `prefix_of` drop j chunk
      ∧ ∀ j', (j' < j)%nat → ¬ sub `prefix_of` drop j' chunk.
Proof.
  revert i. induction chunk as [|x rest IH]; intros i; simpl.
  - destruct (decide (sub `prefix_of` [])) as [Hp|Hn].
    + right. exists 0%nat. repeat split; [lia|done|done|lia].
    + left. split; [done|]. intros j _. by rewrite drop_nil.
  - destruct (decide (sub `prefix_of` x :: rest)) as [Hp|Hn].
    + right. exists 0%nat. repeat split; [lia|lia|done|lia].
    + destruct (IH (i + 1)) as [[Heq Hno]|(j & Heq & Hj & Hp & Hmin)].
      * left. split; [done|]. intros [|j] Hj; [done|].
        simpl. apply Hno. lia.
      * right. exists (S j). repeat split; [lia|lia|done|].
        intros [|j'] Hj'; [done|]. simpl. apply Hmin. lia.
Qed.

Lemma find_spec chunk sub :
  (find chunk sub = -1 ∧ ∀ k, ¬ occurs_at chunk sub k)
  ∨ (occurs_at chunk sub (find chunk sub)
     ∧ ∀ k, 0 ≤ k < find chunk sub → ¬ occurs_at chunk sub k).
Proof.
  unfold find, occurs_at, len.
  destruct (find_from_cases sub chunk 0) as [[-> Hno]|(j & -> & Hj & Hp & Hmin)].
  - left. split; [done|]. intros k [Hk Hp]. apply (Hno (Z.to_nat k)); [lia|done].
  - right. rewrite Z.add_0_l, Nat2Z.id. repeat split; [lia|lia|done|].
    intros k Hk [_ Hp']. apply (Hmin (Z.to_nat k)); [lia|done].
Qed.

Lemma find_found chunk sub :
  find chunk sub ≠ -1 → occurs_at chunk sub (find chunk sub).
Proof. destruct (find_spec chunk sub) as [[? _]|[? _]]; done. Qed.

Lemma find_first chunk sub k :
  occurs_at chunk sub k →
  (∀ k', 0 ≤ k' < k → ¬ occurs_at chunk sub k') →
  find chunk sub = k.
Proof.
  intros Hk Hmin.
  destruct (find_spec chunk sub) as [[_ Hno]|[Hf Hfmin]]; [by destruct (Hno k)|].
  destruct (Z.lt_trichotomy (find chunk sub) k) as [Hlt|[Heq|Hgt]]; [|done|].
  - destruct (Hmin (find chunk sub)); [|done]. destruct Hf. lia.
  - destruct (Hfmin k); [|done]. destruct Hk. lia.
Qed.

Lemma occurs_at_length data sub k :
  occurs_at data sub k → 0 ≤ k ∧ k + len sub ≤ len data.
Proof.
  intros [Hk Hp]. apply prefix_length in Hp. rewrite length_drop in Hp.
  unfold len in *. lia.
Qed.

Lemma length_window data p :
  0 ≤ p → len (window data p) = Z.min mini_chunk_size (Z.max 0 (len data - p)).
Proof.
  intros Hp. unfold window, len. rewrite length_take, length_drop. arith.
Qed.

Lemma window_nonempty data p :
  0 ≤ p → window data p ≠ [] ↔ p < len data.
Proof.
  intros Hp. pose proof (length_window data p Hp) as Hlen. split.
  - intros Hne. destruct (window data p); [done|].
    unfold len in Hlen. simpl in Hlen. arith.
  - intros Hlt Hnil. rewrite Hnil in Hlen. unfold len in Hlen. simpl in Hlen. arith.
Qed.

(** An occurrence inside a window is an occurrence in the file that ends
    before the window does ... *)
Lemma occurs_at_window_1 data sub p k :
  0 ≤ p → window data p ≠ [] → occurs_at (window data p) sub k →
  occurs_at data sub (p + k) ∧ 0 ≤ k ∧ k + len sub ≤ mini_chunk_size.
Proof.
  intros Hp Hne Hocc. apply window_nonempty in Hne; [|done].
  pose proof (occurs_at_length _ _ _ Hocc) as [Hk Hlen].
  rewrite length_window in Hlen by done.
  destruct Hocc as [_ Hpre]. unfold window in Hpre.
  replace (Z.to_nat mini_chunk_size)
    with (Z.to_nat k + (Z.to_nat mini_chunk_size - Z.to_nat k))%nat in Hpre
    by arith.
  rewrite <- take_drop_commute, drop_drop in Hpre.
  apply prefix_of_take in Hpre as [_ Hpre].
  repeat split; [arith|arith| |arith|arith].
  by replace (Z.to_nat (p + k)) with (Z.to_nat p + Z.to_nat k)%nat by lia.
Qed.

(** ... and conversely. *)
Lemma occurs_at_window_2 data sub p k :
  0 ≤ p → 0 ≤ k → k + len sub ≤ mini_chunk_size →
  occurs_at data sub (p + k) → occurs_at (window data p) sub k.
Proof.
  intros Hp Hk Hfit Hocc.
  pose proof (occurs_at_length _ _ _ Hocc) as [_ Hlen].
  destruct Hocc as [_ Hpre]. split.
  - rewrite length_window by done. arith.
  - unfold window.
    replace (Z.to_nat mini_chunk_size)
      with (Z.to_nat k + (Z.to_nat mini_chunk_size - Z.to_nat k))%nat by arith.
    rewrite <- take_drop_commute, drop_drop. apply prefix_of_take. split.
    + arith.
    + by replace (Z.to_nat p + Z.to_nat k)%nat with (Z.to_nat (p + k)) by lia.
Qed.

Lemma find_nil chunk : find chunk [] = 0.
Proof.
  unfold find. by destruct chunk.
Qed.

Lemma elem_of_occurrences data sub k :
  k ∈ occurrences data sub ↔ occurs_at data sub k.
Proof.
  unfold occurrences. rewrite list_elem_of_filter, elem_of_seqZ.
  unfold occurs_at. intuition lia.
Qed.
End find_facts.

(** * Running computations *)

Section running.
Context {A B : Type}.
Implicit Types (m : io A) (k : A → io B).

Lemma bind_return m k h a h' :
  m h = (Return a, h') → (m ≫= k) h = k a h'.
Proof. unfold mbind, io_bind. by intros ->. Qed.

Lemma bind_raise m k h e h' :
  m h = (Raise e, h') → (m ≫= k) h = (Raise e, h').
Proof. unfold mbind, io_bind. by intros ->. Qed.
End running.

Section indexing.
Context {A : Type}.
Implicit Types l : list A.

Lemma py_index_nonneg l i :
  0 ≤ i < len l → py_index l i = Some (Z.to_nat i).
Proof.
  intros Hi. unfold py_index. repeat case_decide; lia || done.
Qed.

Lemma py_index_last l :
  l ≠ [] → py_index l (-1) = Some (length l - 1)%nat.
Proof.
  intros Hne. unfold py_index, len. destruct l as [|x l]; [done|].
  simpl length. repeat case_decide; try lia. f_equal. lia.
Qed.

Lemma py_index_nil i : py_index (@nil A) i = None.
Proof.
  unfold py_index, len. simpl. repeat case_decide; lia || done.
Qed.

Lemma getitem_nonneg l i x h :
  0 ≤ i < len l → l !! Z.to_nat i = Some x → getitem l i h = (Return x, h).
Proof.
  intros Hi Hx. unfold getitem. rewrite py_index_nonneg by done.
  simpl. by rewrite Hx.
Qed.
End indexing.

(** * The loop of one boundary *)

Section loops.
Context (data sub : bytes) (file_size : Z).

Lemma lands_det p r1 r2 :
  lands data sub file_size p r1 → lands data sub file_size p r2 → r1 = r2.
Proof.
  intros H1. revert r2.
  induction H1 as [p Hw|p Hw Hf|p r Hw Hf _ IH]; intros r2 H2;
    inversion H2; subst; try done.
  by apply IH.
Qed.

(** Where the loop can land: on [file_size], or on an occurrence that
    lies inside one of the windows read from the guess. *)
Lemma lands_inv p r :
  0 ≤ p → lands data sub file_size p r →
  r = file_size
  ∨ ∃ j, 0 ≤ j
      ∧ p + j * mini_chunk_size ≤ r
      ∧ r + len sub ≤ p + (j + 1) * mini_chunk_size
      ∧ r < len data
      ∧ occurs_at data sub r.
Proof.
  intros Hp Hl. induction Hl as [p Hw|p Hw Hf|p r Hw Hf _ IH].
  - by left.
  - right. exists 0.
    destruct (occurs_at_window_1 data sub p _ Hp Hw (find_found _ _ Hf))
      as (Hocc & Hk & Hfit).
    apply window_nonempty in Hw; [|done].
    pose proof (occurs_at_length _ _ _ Hocc) as [_ Hlen].
    split_and!; [done|arith|arith| |done].
    destruct sub as [|b sub']; [rewrite find_nil; lia|].
    unfold len in Hlen. simpl in Hlen. arith.
  - destruct IH as [->|(j & Hj & Hlo & Hhi & Hlt & Hocc)]; [arith|by left|].
    right. exists (j + 1). split_and!; try done; arith.
Qed.

Lemma read_window h p :
  at_offset data h p →
  read mini_chunk_size h
  = (Return (window data p),
     set_position (position h + len (window data p))
       (log (CallRead mini_chunk_size) h)).
Proof.
  intros (_ & _ & Hc & Hd). unfold read, window.
  rewrite decide_False by (unfold mini_chunk_size; lia). by rewrite Hc, Hd.
Qed.

(** A read that returned bytes leaves the handle where the next window
    begins, or at the end of the file when the read came up short. *)
Lemma at_offset_next h p :
  at_offset data h p → window data p ≠ [] →
  at_offset data
    (set_position (position h + len (window data p))
       (log (CallRead mini_chunk_size) h))
    (p + mini_chunk_size).
Proof.
  intros (Hp & Hpos & Hc & Hd) Hw.
  pose proof (length_window data p Hp) as Hlen.
  unfold at_offset, set_position, log. cbn [contents position].
  split_and!; [arith|arith|done|].
  replace (Z.to_nat (position h + len (window data p)))
    with (Z.to_nat (position h) + length (window data p))%nat by arith.
  rewrite <- drop_drop, Hd, drop_drop.
  assert (Z.to_nat p + length (window data p) = Z.to_nat (p + mini_chunk_size)
          ∨ (length data ≤ Z.to_nat p + length (window data p)
             ∧ length data ≤ Z.to_nat (p + mini_chunk_size)))%nat
    as [->|[Hshort Hpast]] by arith.
  - done.
  - by rewrite !drop_ge.
Qed.

Lemma setitem_at (l : list Z) bi j v h :
  py_index l bi = Some j → setitem l bi v h = (Return (<[j:=v]> l), h).
Proof. unfold setitem. by intros ->. Qed.

(** With more fuel than there are bytes after the guess, the loop leaves
    by one of its two [break]s, and stores where it landed. *)
Lemma while_True_lands fuel h p bi cb j :
  at_offset data h p → py_index cb bi = Some j →
  (length (drop (Z.to_nat p) data) < fuel)%nat →
  ∃ r h',
    while_True fuel file_size sub bi cb p h = (Return (<[j:=r]> cb), h')
    ∧ contents h' = data
    ∧ lands data sub file_size p r.
Proof.
  revert h p. induction fuel as [|fuel IH]; intros h p Hat Hj Hfuel; [lia|].
  simpl. erewrite bind_return by by apply read_window.
  pose proof Hat as (Hp & _ & Hc & _).
  destruct (decide (window data p = [])) as [Hw|Hw].
  { eexists _, _. split_and!; [by apply setitem_at|done|by constructor]. }
  simpl. destruct (decide (find (window data p) sub ≠ -1)) as [Hf|Hf].
  { eexists _, _. split_and!; [by apply setitem_at|done|by constructor]. }
  apply dec_stable in Hf.
  destruct (IH _ _ (at_offset_next _ _ Hat Hw) Hj) as (r & h' & Hrun & Hc' & Hl).
  { apply window_nonempty in Hw; [|done].
    rewrite !length_drop in *. arith. }
  eexists _, _. split_and!; [done|done|by apply lands_next].
Qed.

Lemma adjust_lands fuel h cb bi g :
  contents h = data → 0 ≤ bi < len cb → cb !! Z.to_nat bi = Some g → 0 ≤ g →
  (length data < fuel)%nat →
  ∃ r h',
    adjust fuel file_size sub cb bi h = (Return (<[Z.to_nat bi:=r]> cb), h')
    ∧ contents h' = data
    ∧ lands data sub file_size g r.
Proof.
  intros Hc Hbi Hg Hg0 Hfuel. unfold adjust.
  erewrite bind_return by by apply getitem_nonneg.
  erewrite bind_return; last first.
  { unfold seek. by rewrite decide_False by lia. }
  apply while_True_lands.
  - split_and!; simpl; [done|lia|done|by rewrite Z.add_0_l].
  - by apply py_index_nonneg.
  - rewrite length_drop. lia.
Qed.
Lemma for_each_adjust fuel k :
  ∀ b cb h,
    contents h = data → 1 ≤ b → b + Z.of_nat k ≤ len cb →
    (length data < fuel)%nat →
    (∀ i, b ≤ i < b + Z.of_nat k → ∃ g, cb !! Z.to_nat i = Some g ∧ 0 ≤ g) →
    ∃ cb' h',
      for_each (seqZ b (Z.of_nat k)) (adjust fuel file_size sub) cb h
      = (Return cb', h')
      ∧ contents h' = data
      ∧ length cb' = length cb
      ∧ (∀ i, ¬ (b ≤ i < b + Z.of_nat k) → cb' !! Z.to_nat i = cb !! Z.to_nat i)
      ∧ (∀ i, b ≤ i < b + Z.of_nat k →
           ∃ g r, cb !! Z.to_nat i = Some g ∧ cb' !! Z.to_nat i = Some r
                  ∧ lands data sub file_size g r).
Proof.
  induction k as [|k IH]; intros b cb h Hc Hb Hlen Hfuel Hg.
  { exists cb, h. rewrite seqZ_nil by lia. split_and!; try done. lia. }
  rewrite seqZ_cons by lia. simpl.
  destruct (Hg b) as (g & Hgb & Hg0); [lia|].
  destruct (adjust_lands fuel h cb b g) as (r & h1 & Hrun & Hc1 & Hl);
    [done|arith|done|done|done|].
  erewrite bind_return by done.
  replace (Z.pred (Z.of_nat (S k))) with (Z.of_nat k) by lia.
  destruct (IH (Z.succ b) (<[Z.to_nat b:=r]> cb) h1)
    as (cb' & h' & Hrun' & Hc' & Hlen' & Hout & Hin);
    [done|lia|unfold len in *; rewrite length_insert; lia|done| |].
  { intros i Hi. destruct (Hg i) as (gi & Hgi & Hgi0); [lia|].
    exists gi. split; [|done]. rewrite list_lookup_insert_ne by lia. done. }
  exists cb', h'. rewrite length_insert in Hlen'. split_and!; try done.
  - intros i Hi. destruct (decide (0 ≤ i)) as [Hi0|Hi0].
    + rewrite Hout by lia. apply list_lookup_insert_ne. lia.
    + replace (Z.to_nat i) with (Z.to_nat 0) by lia.
      rewrite (Hout 0) by lia. apply list_lookup_insert_ne. lia.
  - intros i Hi. destruct (decide (i = b)) as [->|Hne].
    + exists g, r. split_and!; [done| |done].
      rewrite Hout by lia. apply list_lookup_insert_eq.
      apply lookup_lt_Some in Hgb. lia.
    + destruct (Hin i) as (gi & ri & Hgi & Hri & Hli); [lia|].
      exists gi, ri. split_and!; [|done|done].
      by rewrite list_lookup_insert_ne in Hgi by lia.
Qed.
End loops.

(** * The whole function *)

Section whole.
Implicit Types (h : BinaryIO) (sep : bytes) (n : Z).

Lemma prologue_run fuel n sep h :
  find_chunk_boundaries_fuel fuel n (PyBytes sep) h
  = (cb ← initial_guesses (file_length h) n;
     cb' ← for_each (range 1 (len cb - 1)) (adjust fuel (file_length h) sep) cb;
     mret (sorted (set cb'))) (rewound h).
Proof.
  unfold find_chunk_boundaries_fuel.
  assert (0 ≤ file_length h) by (unfold file_length; lia).
  erewrite bind_return; last first.
  { unfold seek. by rewrite decide_False by lia. }
  erewrite bind_return by done.
  erewrite bind_return; last first.
  { unfold seek. by rewrite decide_False by lia. }
  simpl. rewrite Z.add_0_r. unfold rewound, set_position, log. simpl.
  by rewrite <- !app_assoc.
Qed.

Lemma initial_guesses_run fs n h :
  1 ≤ n →
  initial_guesses fs n h
  = (Return (<[Z.to_nat n:=fs]> ((λ i, i * (fs `div` n)) <$> seqZ 0 (n + 1))), h).
Proof.
  intros Hn. unfold initial_guesses, floordiv, range.
  rewrite decide_False by lia.
  erewrite bind_return by done. rewrite Z.sub_0_r.
  erewrite setitem_at; [done|]. rewrite py_index_last.
  - f_equal. rewrite length_fmap, length_seqZ. lia.
  - intros Hnil. apply (f_equal length) in Hnil.
    rewrite length_fmap, length_seqZ in Hnil. simpl in Hnil. lia.
Qed.

Lemma initial_guesses_interior fs n i :
  0 ≤ i < n →
  <[Z.to_nat n:=fs]> ((λ i, i * (fs `div` n)) <$> seqZ 0 (n + 1)) !! Z.to_nat i
  = Some (i * (fs `div` n)).
Proof.
  intros Hi. rewrite list_lookup_insert_ne by lia.
  rewrite list_lookup_fmap, lookup_seqZ_lt by lia.
  by rewrite Z.add_0_l, Z2Nat.id by lia.
Qed.

Lemma initial_guesses_last fs n :
  0 ≤ n →
  <[Z.to_nat n:=fs]> ((λ i, i * (fs `div` n)) <$> seqZ 0 (n + 1)) !! Z.to_nat n
  = Some fs.
Proof.
  intros Hn. apply list_lookup_insert_eq.
  rewrite length_fmap, length_seqZ. lia.
Qed.

(** With at least one chunk requested and a [bytes] separator the call
    returns, and what it returns is the sorted set of the adjusted
    boundaries. *)
Lemma find_chunk_boundaries_fuel_run fuel n sep h :
  1 ≤ n → (length (contents h) < fuel)%nat →
  ∃ cb h',
    find_chunk_boundaries_fuel fuel n (PyBytes sep) h
    = (Return (sorted (set cb)), h')
    ∧ contents h' = contents h
    ∧ adjusted (contents h) sep n cb.
Proof.
  intros Hn Hfuel. rewrite prologue_run.
  erewrite bind_return by by apply initial_guesses_run.
  set (g := <[Z.to_nat n:=_]> _).
  assert (len g = n + 1) as Hlen.
  { unfold len, g. rewrite length_insert, length_fmap, length_seqZ. lia. }
  unfold range. rewrite Hlen.
  replace (n + 1 - 1 - 1) with (Z.of_nat (Z.to_nat (n - 1))) by lia.
  destruct (for_each_adjust (contents h) sep (file_length h) fuel
              (Z.to_nat (n - 1)) 1 g (rewound h))
    as (cb & h' & Hrun & Hc & Hlen' & Hout & Hin); [done|lia|lia|done| |].
  { intros i Hi. eexists. split; [apply initial_guesses_interior; lia|].
    apply Z.mul_nonneg_nonneg; [lia|].
    apply Z.div_pos; unfold file_length; lia. }
  erewrite bind_return by done.
  exists cb, h'. split_and!; [done|done|].
  unfold adjusted. split_and!.
  - unfold len in *. lia.
  - change 0%nat with (Z.to_nat 0).
    rewrite (Hout 0) by lia. unfold g.
    by rewrite (initial_guesses_interior _ n 0) by lia.
  - rewrite Hout by lia. by apply initial_guesses_last; lia.
  - intros i Hi. destruct (Hin i) as (gi & r & Hgi & Hr & Hl); [lia|].
    unfold g in Hgi. rewrite initial_guesses_interior in Hgi by lia.
    injection Hgi as <-. by exists r.
Qed.

Lemma find_chunk_boundaries_run n sep h :
  1 ≤ n →
  ∃ cb h',
    find_chunk_boundaries n (PyBytes sep) h = (Return (sorted (set cb)), h')
    ∧ contents h' = contents h
    ∧ adjusted (contents h) sep n cb.
Proof.
  intros Hn. unfold find_chunk_boundaries.
  apply find_chunk_boundaries_fuel_run; [done|lia].
Qed.

Lemma find_chunk_boundaries_zero fuel sep h :
  find_chunk_boundaries_fuel fuel 0 (PyBytes sep) h
  = (Raise ZeroDivisionError, rewound h).
Proof.
  rewrite prologue_run. apply bind_raise.
  unfold initial_guesses, floordiv. by rewrite decide_True.
Qed.

Lemma find_chunk_boundaries_negative fuel n sep h :
  n < 0 →
  find_chunk_boundaries_fuel fuel n (PyBytes sep) h
  = (Raise IndexError, rewound h).
Proof.
  intros Hn. rewrite prologue_run. apply bind_raise.
  unfold initial_guesses, floordiv, range. rewrite decide_False by lia.
  erewrite bind_return by done. rewrite seqZ_nil by lia.
  unfold setitem. by rewrite fmap_nil, py_index_nil.
Qed.

Lemma find_chunk_boundaries_not_bytes fuel n o h :
  is_bytes o = false →
  find_chunk_boundaries_fuel fuel n o h
  = (Raise (AssertionError "Must represent special token as a bytestring"), h).
Proof. by destruct o. Qed.

(** The boundaries at the end of the [for] loop are determined by the
    bytes of the file, the separator and the number of chunks. *)
Lemma adjusted_det data sep n cb1 cb2 :
  1 ≤ n → adjusted data sep n cb1 → adjusted data sep n cb2 → cb1 = cb2.
Proof.
  intros Hn (Hlen1 & Hz1 & Hl1 & Hi1) (Hlen2 & Hz2 & Hl2 & Hi2).
  apply list_eq. intros i.
  destruct (decide (i = 0%nat)) as [->|Hi0]; [congruence|].
  destruct (decide (i = Z.to_nat n)) as [->|Hin]; [congruence|].
  destruct (decide (i < Z.to_nat n)%nat) as [Hlt|Hge].
  - destruct (Hi1 (Z.of_nat i)) as (r1 & Hr1 & Hla1); [lia|].
    destruct (Hi2 (Z.of_nat i)) as (r2 & Hr2 & Hla2); [lia|].
    rewrite Nat2Z.id in Hr1, Hr2. rewrite Hr1, Hr2. f_equal.
    by eapply lands_det.
  - rewrite !lookup_ge_None_2; [done|arith|arith].
Qed.

Lemma adjusted_ends data sep n cb :
  adjusted data sep n cb → 0 ∈ cb ∧ len data ∈ cb.
Proof.
  intros (_ & Hz & Hl & _). split; by eapply list_elem_of_lookup_2.
Qed.

Lemma adjusted_elem data sep n cb x :
  1 ≤ n → adjusted data sep n cb → x ∈ cb →
  0 ≤ x ≤ len data ∧ (x = 0 ∨ x = len data ∨ occurs_at data sep x).
Proof.
  intros Hn (Hlen & Hz & Hl & Hint) [i Hi]%list_elem_of_lookup_1.
  pose proof (lookup_lt_Some _ _ _ Hi) as Hilt.
  destruct (decide (i = 0%nat)) as [->|Hi0].
  { assert (x = 0) as -> by congruence. arith. }
  destruct (decide (i = Z.to_nat n)) as [->|Hin].
  { assert (x = len data) as -> by congruence. arith. }
  destruct (Hint (Z.of_nat i)) as (r & Hr & Hla); [arith|].
  rewrite Nat2Z.id in Hr. assert (r = x) as -> by congruence.
  assert (0 ≤ len data `div` n) by (apply Z.div_pos; arith).
  apply lands_inv in Hla as [->|(j & Hj & Hlo & Hhi & Hlt & Hocc)]; [arith| |nia].
  split; [|by auto]. unfold mini_chunk_size in *. nia.
Qed.

(** What the call answers depends on the bytes of the file only, not on
    where the handle stands, on what was done with it before, or on how
    much fuel beyond the length of the file the loops are given. *)
Lemma outcome_by_contents_fuel fuel1 fuel2 n (o : pyobj) h1 h2 :
  contents h1 = contents h2 →
  (length (contents h1) < fuel1)%nat → (length (contents h2) < fuel2)%nat →
  (find_chunk_boundaries_fuel fuel1 n o h1).1
  = (find_chunk_boundaries_fuel fuel2 n o h2).1.
Proof.
  intros Hc Hf1 Hf2. destruct (is_bytes o) eqn:Hb.
  - destruct o as [sep| | |]; try done.
    destruct (Z.lt_trichotomy n 0) as [Hn|[->|Hn]].
    + by rewrite !find_chunk_boundaries_negative.
    + by rewrite !find_chunk_boundaries_zero.
    + assert (1 ≤ n) as Hn1 by lia.
      destruct (find_chunk_boundaries_fuel_run fuel1 n sep h1 Hn1 Hf1)
        as (cb1 & ? & -> & _ & Ha1).
      destruct (find_chunk_boundaries_fuel_run fuel2 n sep h2 Hn1 Hf2)
        as (cb2 & ? & -> & _ & Ha2).
      rewrite Hc in Ha1.
      by rewrite (adjusted_det _ _ _ cb1 cb2 Hn1 Ha1 Ha2).
  - by rewrite !find_chunk_boundaries_not_bytes.
Qed.

Lemma outcome_by_contents n (o : pyobj) h1 h2 :
  contents h1 = contents h2 →
  (find_chunk_boundaries n o h1).1 = (find_chunk_boundaries n o h2).1.
Proof.
  intros Hc. unfold find_chunk_boundaries.
  apply outcome_by_contents_fuel; [done|lia|lia].
Qed.

Lemma enough_fuel fuel n (o : pyobj) h :
  (length (contents h) < fuel)%nat →
  (find_chunk_boundaries_fuel fuel n o h).1 = (find_chunk_boundaries n o h).1.
Proof.
  intros Hfuel. unfold find_chunk_boundaries.
  apply outcome_by_contents_fuel; [done|done|lia].
Qed.

Lemma contents_kept n (o : pyobj) h :
  contents (find_chunk_boundaries n o h).2 = contents h.
Proof.
  destruct (is_bytes o) eqn:Hb.
  - destruct o as [sep| | |]; try done.
    destruct (Z.lt_trichotomy n 0) as [Hn|[->|Hn]].
    + unfold find_chunk_boundaries.
      by rewrite find_chunk_boundaries_negative.
    + unfold find_chunk_boundaries.
      by rewrite find_chunk_boundaries_zero.
    + by destruct (find_chunk_boundaries_run n sep h) as (? & ? & -> & ? & _); [lia|].
  - unfold find_chunk_boundaries.
    by rewrite find_chunk_boundaries_not_bytes.
Qed.
End whole.

(** * Where the loop lands *)

Section landing.
Context (data sub : bytes) (file_size : Z).

Lemma find_empty_chunk : sub ≠ [] → find [] sub = -1.
Proof.
  intros Hne. unfold find. simpl. case_decide as Hp; [|done].
  by apply prefix_nil_inv in Hp.
Qed.

(** The nearest occurrence at or after the guess, when it lies inside the
    first window, is where the loop lands. *)
Lemma lands_in_first_window p q :
  sub ≠ [] → 0 ≤ p ≤ q → q + len sub ≤ p + mini_chunk_size →
  occurs_at data sub q →
  (∀ q', p ≤ q' < q → ¬ occurs_at data sub q') →
  lands data sub file_size p q.
Proof.
  intros Hne Hpq Hfit Hocc Hmin.
  pose proof (occurs_at_length _ _ _ Hocc) as [_ Hlen].
  assert (0 < len sub) by (destruct sub; [done|unfold len; simpl; lia]).
  assert (window data p ≠ []) as Hw by (apply window_nonempty; lia).
  assert (find (window data p) sub = q - p) as Hfind.
  { apply find_first.
    - apply occurs_at_window_2; [lia|lia|lia|].
      by replace (p + (q - p)) with q by lia.
    - intros k Hk Hk'. apply occurs_at_window_1 in Hk' as [Hk' _]; [|lia|done].
      apply (Hmin (p + k)); [lia|done]. }
  assert (lands data sub file_size p (p + find (window data p) sub)) as Hl
    by (apply lands_found; [done|lia]).
  by replace (p + find (window data p) sub) with q in Hl by lia.
Qed.

(** With no occurrence at or after the guess and at most one window left,
    the loop lands on the file size. *)
Lemma lands_nowhere p :
  0 ≤ p → len data ≤ p + mini_chunk_size →
  (∀ q, p ≤ q → ¬ occurs_at data sub q) →
  lands data sub file_size p file_size.
Proof.
  intros Hp Hshort Hno.
  destruct (decide (window data p = [])) as [Hw|Hw]; [by apply lands_eof|].
  apply lands_next; [done| |].
  - destruct (find_spec (window data p) sub) as [[? _]|[Hocc _]]; [done|].
    apply occurs_at_window_1 in Hocc as (Hocc & Hk & _); [|done..].
    exfalso. apply (Hno (p + find (window data p) sub)); [lia|done].
  - apply lands_eof.
    destruct (decide (window data (p + mini_chunk_size) = [])) as [|Hw']; [done|].
    apply window_nonempty in Hw'; arith.
Qed.

Lemma occurs_at_head b sub' q :
  occurs_at data (b :: sub') q → data !! Z.to_nat q = Some b.
Proof.
  intros [_ [t Ht]]. apply (f_equal (.!! 0%nat)) in Ht.
  rewrite lookup_drop in Ht. by rewrite Nat.add_0_r in Ht.
Qed.
End landing.

(** * Properties of the returned boundaries *)

(** C1: for a non-empty file, at least one requested chunk and a non-empty
    separator, the call returns a sequence that is strictly ascending (hence
    without duplicates), begins with 0 and ends with the file size. *)
Theorem boundaries_strictly_sorted (file : BinaryIO) (n : Z) (sep : bytes) :
  0 < file_length file → 1 ≤ n → sep ≠ [] →
  ∃ bs file',
    find_chunk_boundaries n (PyBytes sep) file = (Return bs, file')
    ∧ StronglySorted Z.lt bs
    ∧ NoDup bs
    ∧ head bs = Some 0
    ∧ last bs = Some (file_length file).
Proof.
  intros _ Hn _.
  destruct (find_chunk_boundaries_run n sep file Hn) as (cb & file' & Hrun & _ & Hadj).
  destruct (adjusted_ends _ _ _ _ Hadj) as [Hzero Hsize].
  exists (sorted (set cb)), file'.
  split_and!; [done|apply sorted_set_strict|apply NoDup_sorted_set| |].
  - apply sorted_head; [apply sorted_set_strict|by apply elem_of_sorted_set|].
    intros x Hx. rewrite elem_of_sorted_set in Hx.
    by destruct (adjusted_elem _ _ _ _ _ Hn Hadj Hx) as [[? _] _].
  - apply sorted_last; [apply sorted_set_strict|by apply elem_of_sorted_set|].
    intros x Hx. rewrite elem_of_sorted_set in Hx.
    by destruct (adjusted_elem _ _ _ _ _ Hn Hadj Hx) as [[_ ?] _].
Qed.

Lemma boundaries_strictly_sorted_witness :
  0 < file_length (open hundred) ∧ 1 ≤ 4 ∧ [X] ≠ []
  ∧ ∃ bs file',
      find_chunk_boundaries 4 (PyBytes [X]) (open hundred) = (Return bs, file')
      ∧ StronglySorted Z.lt bs
      ∧ NoDup bs
      ∧ head bs = Some 0
      ∧ last bs = Some (file_length (open hundred)).
Proof.
  assert (0 < file_length (open hundred)) as H1 by (vm_compute; reflexivity).
  assert (1 ≤ 4) as H2 by lia.
  assert ([X] ≠ []) as H3 by discriminate.
  split_and!; [exact H1|exact H2|exact H3|].
  exact (boundaries_strictly_sorted (open hundred) 4 [X] H1 H2 H3).
Defined.

(** C4: for at least one requested chunk and a non-empty separator, every
    returned offset lies in [0, file size], and every returned offset other
    than 0 and the file size is the start of an occurrence of the separator
    in the file (or is the file size). *)
Theorem boundaries_on_separator (file : BinaryIO) (n : Z) (sep : bytes) :
  1 ≤ n → sep ≠ [] →
  ∃ bs file',
    find_chunk_boundaries n (PyBytes sep) file = (Return bs, file')
    ∧ ∀ b, b ∈ bs →
        0 ≤ b ≤ file_length file
        ∧ (b ≠ 0 → b ≠ file_length file →
           occurs_at (contents file) sep b ∨ b = file_length file).
Proof.
  intros Hn _.
  destruct (find_chunk_boundaries_run n sep file Hn) as (cb & file' & Hrun & _ & Hadj).
  exists (sorted (set cb)), file'. split; [done|].
  intros b Hb. rewrite elem_of_sorted_set in Hb.
  destruct (adjusted_elem _ _ _ _ _ Hn Hadj Hb) as [Hrange Hocc].
  split; [done|]. intros H0 Hsize. left.
  by destruct Hocc as [?|[?|?]].
Qed.

Lemma boundaries_on_separator_witness :
  1 ≤ 4 ∧ [X] ≠ []
  ∧ ∃ bs file',
      find_chunk_boundaries 4 (PyBytes [X]) (open hundred) = (Return bs, file')
      ∧ ∀ b, b ∈ bs →
          0 ≤ b ≤ file_length (open hundred)
          ∧ (b ≠ 0 → b ≠ file_length (open hundred) →
             occurs_at (contents (open hundred)) [X] b
             ∨ b = file_length (open hundred)).
Proof.
  assert (1 ≤ 4) as H1 by lia.
  assert ([X] ≠ []) as H2 by discriminate.
  split_and!; [exact H1|exact H2|].
  exact (boundaries_on_separator (open hundred) 4 [X] H1 H2).
Defined.

(** C7: for a non-empty file, at least one requested chunk and a non-empty
    separator, the returned sequence has at least 2 and at most
    [desired_num_chunks + 1] elements. *)
Theorem boundaries_length (file : BinaryIO) (n : Z) (sep : bytes) :
  0 < file_length file → 1 ≤ n → sep ≠ [] →
  ∃ bs file',
    find_chunk_boundaries n (PyBytes sep) file = (Return bs, file')
    ∧ 2 ≤ len bs ≤ n + 1.
Proof.
  intros Hsize Hn _.
  destruct (find_chunk_boundaries_run n sep file Hn) as (cb & file' & Hrun & _ & Hadj).
  destruct (adjusted_ends _ _ _ _ Hadj) as [Hzero Hlast].
  exists (sorted (set cb)), file'. split; [done|]. split.
  - assert ([0; file_length file] ⊆+ sorted (set cb)) as Hsub.
    { apply NoDup_submseteq.
      - apply NoDup_cons. split; [|apply NoDup_singleton].
        rewrite list_elem_of_singleton. lia.
      - intros x. rewrite elem_of_sorted_set, elem_of_cons, list_elem_of_singleton.
        by intros [->| ->]. }
    apply submseteq_length in Hsub. simpl in Hsub. arith.
  - pose proof (length_sorted_set cb) as Hle. destruct Hadj as [Hlen _]. arith.
Qed.

Lemma boundaries_length_witness :
  0 < file_length (open hundred) ∧ 1 ≤ 4 ∧ [X] ≠ []
  ∧ ∃ bs file',
      find_chunk_boundaries 4 (PyBytes [X]) (open hundred) = (Return bs, file')
      ∧ 2 ≤ len bs ≤ 4 + 1.
Proof.
  assert (0 < file_length (open hundred)) as H1 by (vm_compute; reflexivity).
  assert (1 ≤ 4) as H2 by lia.
  assert ([X] ≠ []) as H3 by discriminate.
  split_and!; [exact H1|exact H2|exact H3|].
  exact (boundaries_length (open hundred) 4 [X] H1 H2 H3).
Defined.

(** C9: on an empty file, for at least one requested chunk and any [bytes]
    separator (the empty one included), the call returns the one-element
    sequence [0]. *)
Theorem empty_file_single_boundary (file : BinaryIO) (n : Z) (sep : bytes) :
  contents file = [] → 1 ≤ n →
  ∃ file', find_chunk_boundaries n (PyBytes sep) file = (Return [0], file').
Proof.
  intros Hempty Hn.
  destruct (find_chunk_boundaries_run n sep file Hn) as (cb & file' & Hrun & _ & Hadj).
  exists file'. rewrite Hrun. do 2 f_equal.
  rewrite Hempty in Hadj.
  destruct (adjusted_ends _ _ _ _ Hadj) as [Hzero _].
  apply sorted_set_unique; [repeat constructor|].
  intros x. rewrite list_elem_of_singleton. split; [by intros ->|].
  intros Hx. destruct (adjusted_elem _ _ _ _ _ Hn Hadj Hx) as [Hr _].
  unfold len in Hr. simpl in Hr. lia.
Qed.

Lemma empty_file_single_boundary_witness :
  contents (open []) = [] ∧ 1 ≤ 7
  ∧ ∃ file', find_chunk_boundaries 7 (PyBytes []) (open []) = (Return [0], file').
Proof.
  assert (contents (open []) = []) as H1 by reflexivity.
  assert (1 ≤ 7) as H2 by lia.
  split_and!; [exact H1|exact H2|].
  exact (empty_file_single_boundary (open []) 7 [] H1 H2).
Defined.

(** C10: the call is deterministic in the bytes of the file: on any two
    handles open on the same bytes, whatever their positions and histories,
    it answers the same; in particular a second call on the handle the first
    one has left answers as the first. *)
Theorem boundaries_deterministic (file : BinaryIO) (n : Z) (sep : pyobj) :
  (∀ file', contents file' = contents file →
     (find_chunk_boundaries n sep file').1 = (find_chunk_boundaries n sep file).1)
  ∧ (find_chunk_boundaries n sep (find_chunk_boundaries n sep file).2).1
    = (find_chunk_boundaries n sep file).1.
Proof.
  split.
  - intros file' Hc. by apply outcome_by_contents.
  - apply outcome_by_contents, contents_kept.
Qed.

Lemma boundaries_deterministic_witness :
  contents (mkBinaryIO hundred 57 [CallRead 57]) = contents (open hundred)
  ∧ (find_chunk_boundaries 4 (PyBytes [X]) (mkBinaryIO hundred 57 [CallRead 57])).1
    = (find_chunk_boundaries 4 (PyBytes [X]) (open hundred)).1.
Proof.
  assert (contents (mkBinaryIO hundred 57 [CallRead 57]) = contents (open hundred))
    as H1 by reflexivity.
  split; [exact H1|].
  exact (proj1 (boundaries_deterministic (open hundred) 4 (PyBytes [X])) _ H1).
Defined.

(** C2, as the code has it: a separator that is not a [bytes] object makes
    the call fail on its assertion before any call on the file handle, which
    is left as it was; an empty [bytes] separator is not refused: with at
    least one chunk requested the call returns a boundary sequence. *)
Theorem non_bytes_separator_rejected (file : BinaryIO) (n : Z) (sep : pyobj) :
  (is_bytes sep = false →
   ∃ msg, find_chunk_boundaries n sep file = (Raise (AssertionError msg), file))
  ∧ (sep = PyBytes [] → 1 ≤ n →
     ∃ bs file', find_chunk_boundaries n sep file = (Return bs, file')).
Proof.
  split.
  - intros Hb. eexists. unfold find_chunk_boundaries.
    by apply find_chunk_boundaries_not_bytes.
  - intros -> Hn.
    destruct (find_chunk_boundaries_run n [] file Hn) as (cb & file' & Hrun & _).
    by exists (sorted (set cb)), file'.
Qed.

Lemma non_bytes_separator_rejected_witness :
  (is_bytes (PyStr "X") = false
   ∧ ∃ msg, find_chunk_boundaries 4 (PyStr "X") (open hundred)
            = (Raise (AssertionError msg), open hundred))
  ∧ (1 ≤ 4
     ∧ ∃ bs file',
         find_chunk_boundaries 4 (PyBytes []) (open hundred) = (Return bs, file')).
Proof.
  assert (is_bytes (PyStr "X") = false) as H1 by reflexivity.
  assert (1 ≤ 4) as H2 by lia.
  split_and!; [exact H1| |exact H2|].
  - exact (proj1 (non_bytes_separator_rejected (open hundred) 4 (PyStr "X")) H1).
  - exact (proj2 (non_bytes_separator_rejected (open hundred) 4 (PyBytes []))
             eq_refl H2).
Defined.

(** C2 fails for the empty separator: on the 100-byte file the call with
    [b""] raises nothing, seeks and reads, and returns the guesses. *)
Lemma empty_separator_not_rejected :
  (find_chunk_boundaries 4 (PyBytes []) (open hundred)).1
  = Return [0; 25; 50; 75; 100]
  ∧ calls (find_chunk_boundaries 4 (PyBytes []) (open hundred)).2
    = [CallSeek 0 SEEK_END; CallTell; CallSeek 0 SEEK_SET;
       CallSeek 25 SEEK_SET; CallRead 4096;
       CallSeek 50 SEEK_SET; CallRead 4096;
       CallSeek 75 SEEK_SET; CallRead 4096]
  ∧ ¬ ∃ e, find_chunk_boundaries 4 (PyBytes []) (open hundred)
           = (Raise e, open hundred).
Proof.
  split_and!; [by vm_compute|by vm_compute|].
  intros [e He]. apply (f_equal fst) in He. vm_compute in He. discriminate.
Qed.

(** C6, as the code has it: on a non-empty file, with one chunk requested
    and a non-empty separator, the call returns exactly [0, file size], and
    the only calls it makes on the handle are those that measure the size. *)
Theorem single_chunk_whole_file (file : BinaryIO) (sep : bytes) :
  0 < file_length file → sep ≠ [] →
  find_chunk_boundaries 1 (PyBytes sep) file
  = (Return [0; file_length file], rewound file).
Proof.
  intros Hsize _. unfold find_chunk_boundaries. rewrite prologue_run.
  erewrite bind_return by (apply initial_guesses_run; lia).
  change (<[Z.to_nat 1:=file_length file]> (_ <$> seqZ 0 (1 + 1)))
    with [0; file_length file].
  change (range 1 (len [0; file_length file] - 1)) with (@nil Z).
  erewrite bind_return by reflexivity.
  unfold mret, io_ret. do 2 f_equal.
  apply sorted_set_unique.
  - repeat constructor. lia.
  - done.
Qed.

Lemma single_chunk_whole_file_witness :
  0 < file_length (open hundred) ∧ [X] ≠ []
  ∧ find_chunk_boundaries 1 (PyBytes [X]) (open hundred)
    = (Return [0; file_length (open hundred)], rewound (open hundred)).
Proof.
  assert (0 < file_length (open hundred)) as H1 by (vm_compute; reflexivity).
  assert ([X] ≠ []) as H2 by discriminate.
  split_and!; [exact H1|exact H2|].
  exact (single_chunk_whole_file (open hundred) [X] H1 H2).
Defined.

(** C6 fails on the empty file: the two ends coincide and the set keeps one
    of them, so the call returns [0] and not the two-element [0, 0]. *)
Lemma single_chunk_empty_file :
  (find_chunk_boundaries 1 (PyBytes [X]) (open [])).1 = Return [0]
  ∧ (find_chunk_boundaries 1 (PyBytes [X]) (open [])).1
    ≠ Return [0; file_length (open [])].
Proof. split; [by vm_compute|]. vm_compute. discriminate. Qed.

(** C8: when the first window read at an interior guess has the separator
    at relative offset 0 (as it does when the separator starts at the guess
    and fits in a window), the loop takes it as a match: the boundary is set
    to the guess itself and nothing more is read. *)
Theorem found_at_zero_accepted (fuel : nat) (file : BinaryIO) (sep : bytes)
    (cb : list Z) (bi g : Z) :
  0 ≤ bi < len cb → cb !! Z.to_nat bi = Some g → 0 ≤ g → sep ≠ [] →
  (occurs_at (contents file) sep g → len sep ≤ mini_chunk_size →
   find (window (contents file) g) sep = 0)
  ∧ (find (window (contents file) g) sep = 0 →
     ∃ file',
       adjust (S fuel) (file_length file) sep cb bi file
       = (Return (<[Z.to_nat bi:=g]> cb), file')
       ∧ calls file'
         = calls file ++ [CallSeek g SEEK_SET; CallRead mini_chunk_size]).
Proof.
  intros Hbi Hg Hg0 Hne. split.
  - intros Hocc Hfit. apply find_first; [|lia].
    apply occurs_at_window_2; [lia|lia|lia|]. by rewrite Z.add_0_r.
  - intros Hfind. unfold adjust.
    erewrite bind_return by by apply getitem_nonneg.
    erewrite bind_return; last first.
    { unfold seek. by rewrite decide_False by lia. }
    simpl. erewrite bind_return; last first.
    { apply (read_window (contents file)).
      split_and!; simpl; [done|lia|done|by rewrite Z.add_0_l]. }
    assert (window (contents file) g ≠ []) as Hw.
    { intros Hnil. rewrite Hnil, find_empty_chunk in Hfind by done. lia. }
    rewrite decide_False by done. simpl.
    rewrite decide_True by lia. rewrite Hfind, Z.add_0_r.
    eexists. split; [by apply setitem_at, py_index_nonneg|].
    simpl. by rewrite <- app_assoc.
Qed.

Lemma found_at_zero_accepted_witness :
  (0 ≤ 2 < len [0; 12; 24; 36; 48; 60; 72; 84; 100]
   ∧ [0; 12; 24; 36; 48; 60; 72; 84; 100] !! Z.to_nat 2 = Some 24
   ∧ 0 ≤ 24 ∧ [X] ≠ [])
  ∧ (occurs_at (contents (open hundred)) [X] 24 ∧ len [X] ≤ mini_chunk_size
     ∧ find (window (contents (open hundred)) 24) [X] = 0)
  ∧ ∃ file',
      adjust 1 (file_length (open hundred)) [X]
        [0; 12; 24; 36; 48; 60; 72; 84; 100] 2 (open hundred)
      = (Return (<[Z.to_nat 2:=24]> [0; 12; 24; 36; 48; 60; 72; 84; 100]), file')
      ∧ calls file'
        = calls (open hundred) ++ [CallSeek 24 SEEK_SET; CallRead mini_chunk_size].
Proof.
  assert (0 ≤ 2 < len [0; 12; 24; 36; 48; 60; 72; 84; 100]) as H1
    by (unfold len; simpl; lia).
  assert ([0; 12; 24; 36; 48; 60; 72; 84; 100] !! Z.to_nat 2 = Some 24) as H2
    by reflexivity.
  assert (0 ≤ 24) as H3 by lia.
  assert ([X] ≠ []) as H4 by discriminate.
  assert (occurs_at (contents (open hundred)) [X] 24) as H5
    by (refine (bool_decide_unpack _ _); vm_compute; exact I).
  assert (len [X] ≤ mini_chunk_size) as H6 by (vm_compute; discriminate).
  pose proof (found_at_zero_accepted 0 (open hundred) [X]
                [0; 12; 24; 36; 48; 60; 72; 84; 100] 2 24 H1 H2 H3 H4)
    as [Hfirst Hthen].
  split; [exact (conj H1 (conj H2 (conj H3 H4)))|]. split.
  - exact (conj H5 (conj H6 (Hfirst H5 H6))).
  - exact (Hthen (Hfirst H5 H6)).
Defined.

(** C3: on a file of exactly 100 bytes in which the one-byte separator "X"
    occurs at offsets 24 and 51 only, with 4 chunks requested, the initial
    guesses are [0, 25, 50, 75, 100] and the call returns [0, 51, 100]. *)
Theorem hundred_byte_scenario (file : BinaryIO) :
  file_length file = 100 → occurrences (contents file) [X] = [24; 51] →
  (initial_guesses (file_length file) 4 (rewound file)).1
  = Return [0; 25; 50; 75; 100]
  ∧ (find_chunk_boundaries 4 (PyBytes [X]) file).1 = Return [0; 51; 100].
Proof.
  intros Hsize Hocc. split.
  { rewrite initial_guesses_run, Hsize by lia. reflexivity. }
  assert (len (contents file) = 100) as Hlen by done.
  assert (∀ q, occurs_at (contents file) [X] q ↔ q = 24 ∨ q = 51) as Hat.
  { intros q. rewrite <- elem_of_occurrences, Hocc.
    rewrite !elem_of_cons, elem_of_nil. tauto. }
  destruct (find_chunk_boundaries_run 4 [X] file) as (cb & file' & -> & _ & Hadj);
    [lia|].
  assert (adjusted (contents file) [X] 4 [0; 51; 51; 100; 100]) as Hadj'.
  { split_and!; [done|done|by rewrite Hlen|].
    intros i Hi. rewrite Hlen. change (100 `div` 4) with 25.
    assert (i = 1 ∨ i = 2 ∨ i = 3) as [->|[->| ->]] by lia.
    - exists 51. split; [done|].
      apply lands_in_first_window; [done|lia|by vm_compute|apply Hat; lia|].
      intros q Hq Hq'. apply Hat in Hq'. lia.
    - exists 51. split; [done|].
      apply lands_in_first_window; [done|lia|by vm_compute|apply Hat; lia|].
      intros q Hq Hq'. apply Hat in Hq'. lia.
    - exists 100. split; [done|].
      apply lands_nowhere; [lia|arith|].
      intros q Hq Hq'. apply Hat in Hq'. lia. }
  assert (1 ≤ 4) as Hn by lia.
  by rewrite (adjusted_det _ _ _ _ _ Hn Hadj Hadj').
Qed.

Lemma hundred_byte_scenario_witness :
  file_length (open hundred) = 100 ∧ occurrences (contents (open hundred)) [X] = [24; 51]
  ∧ (initial_guesses (file_length (open hundred)) 4 (rewound (open hundred))).1
    = Return [0; 25; 50; 75; 100]
  ∧ (find_chunk_boundaries 4 (PyBytes [X]) (open hundred)).1 = Return [0; 51; 100].
Proof.
  assert (file_length (open hundred) = 100) as H1 by reflexivity.
  assert (occurrences (contents (open hundred)) [X] = [24; 51]) as H2
    by (vm_compute; reflexivity).
  split_and!; [exact H1|exact H2|..];
    apply (hundred_byte_scenario (open hundred) H1 H2).
Defined.

(** The two-window file holds "<>" once, at offset 8192. *)
Lemma two_windows_occurrence q :
  occurs_at two_windows open_close q ↔ q = 8192.
Proof.
  split.
  - intros Hocc. pose proof (occurs_at_length _ _ _ Hocc) as [Hq Hlen].
    apply occurs_at_head in Hocc. unfold two_windows in Hocc.
    change (len two_windows) with 8194 in Hlen.
    change (len open_close) with 2 in Hlen.
    destruct (decide (q = 8192)) as [|Hne]; [done|].
    rewrite lookup_app_l in Hocc by (rewrite length_replicate; lia).
    by apply lookup_replicate in Hocc as [? _].
  - intros ->. refine (bool_decide_unpack _ _). vm_compute. exact I.
Qed.

(** C5: successive windows do not overlap, so an occurrence of the
    separator that lies across the end of a window of the scan from an
    interior guess is never what the loop lands on, and when it is the
    nearest occurrence after the guess the loop goes past it, to a later
    occurrence or to the file size.  The two-window file is such an input:
    its only "<>" lies across the end of the first window read from the
    guess 4097, and the boundary ends on the file size. *)
Theorem straddling_occurrence_missed :
  (∀ (fuel : nat) (file : BinaryIO) (sep : bytes) (cb : list Z) (bi g p : Z),
     0 ≤ bi < len cb → cb !! Z.to_nat bi = Some g → 0 ≤ g →
     (length (contents file) < fuel)%nat →
     occurs_at (contents file) sep p → straddles g p (len sep) →
     ∃ r file',
       adjust fuel (file_length file) sep cb bi file
       = (Return (<[Z.to_nat bi:=r]> cb), file')
       ∧ r ≠ p
       ∧ ((∀ q, g ≤ q < p → ¬ occurs_at (contents file) sep q) →
          p < r ∧ (r = file_length file ∨ occurs_at (contents file) sep r)))
  ∧ (1 < len open_close
     ∧ (∀ q, occurs_at two_windows open_close q ↔ q = 8192)
     ∧ (initial_guesses (file_length (open two_windows)) 2
          (rewound (open two_windows))).1
       = Return [0; 4097; 8194]
     ∧ straddles 4097 8192 (len open_close)
     ∧ (find_chunk_boundaries 2 (PyBytes open_close) (open two_windows)).1
       = Return [0; 8194]).
Proof.
  split.
  - intros fuel file sep cb bi g p Hbi Hg Hg0 Hfuel Hocc (j' & Hj' & Hlo' & Hhi').
    destruct (adjust_lands (contents file) sep (file_length file) fuel file cb bi g)
      as (r & file' & Hrun & _ & Hl); [done..|].
    exists r, file'. split; [done|].
    pose proof (occurs_at_length _ _ _ Hocc) as [Hp Hlen].
    apply lands_inv in Hl; [|done].
    destruct Hl as [->|(j & Hj & Hlo & Hhi & Hlt & Hocc')].
    + split; [arith|]. intros _. split; [arith|by left].
    + split; [arith|]. intros Hnone. split; [|by right].
      destruct (decide (r < p)) as [Hrp|Hrp]; [|arith].
      destruct (Hnone r); [arith|done].
  - split_and!.
    + by vm_compute.
    + apply two_windows_occurrence.
    + by vm_compute.
    + exists 0. by vm_compute.
    + by vm_compute.
Qed.

Lemma straddling_occurrence_missed_witness :
  (0 ≤ 1 < len [0; 4097; 8194] ∧ [0; 4097; 8194] !! Z.to_nat 1 = Some 4097
   ∧ 0 ≤ 4097
   ∧ (length (contents (open two_windows)) < Z.to_nat 8195)%nat
   ∧ occurs_at (contents (open two_windows)) open_close 8192
   ∧ straddles 4097 8192 (len open_close))
  ∧ ∃ r file',
      adjust (Z.to_nat 8195) (file_length (open two_windows)) open_close [0; 4097; 8194] 1
        (open two_windows)
      = (Return (<[Z.to_nat 1:=r]> [0; 4097; 8194]), file')
      ∧ r ≠ 8192
      ∧ ((∀ q, 4097 ≤ q < 8192 →
            ¬ occurs_at (contents (open two_windows)) open_close q) →
         8192 < r
         ∧ (r = file_length (open two_windows)
            ∨ occurs_at (contents (open two_windows)) open_close r)).
Proof.
  assert (0 ≤ 1 < len [0; 4097; 8194]) as H1 by (unfold len; simpl; lia).
  assert ([0; 4097; 8194] !! Z.to_nat 1 = Some 4097) as H2 by reflexivity.
  assert (0 ≤ 4097) as H3 by lia.
  assert (length (contents (open two_windows)) < Z.to_nat 8195)%nat as H4
    by (apply Nat.ltb_lt; vm_compute; reflexivity).
  assert (occurs_at (contents (open two_windows)) open_close 8192) as H5
    by (refine (bool_decide_unpack _ _); vm_compute; exact I).
  assert (straddles 4097 8192 (len open_close)) as H6
    by (exists 0; unfold len, open_close, mini_chunk_size; simpl; lia).
  split; [exact (conj H1 (conj H2 (conj H3 (conj H4 (conj H5 H6)))))|].
  exact (proj1 straddling_occurrence_missed (Z.to_nat 8195) (open two_windows) open_close
           [0; 4097; 8194] 1 4097 8192 H1 H2 H3 H4 H5 H6).
Defined.

(** * Further properties of [find_chunk_boundaries] *)

Section further.
Implicit Types (h : BinaryIO) (data sep : bytes) (n : Z) (cb : list Z).

(** The returned list, read off the boundaries at the end of the loop *)
Lemma adjusted_sorted data sep n cb :
  1 ≤ n → adjusted data sep n cb →
  StronglySorted Z.lt (sorted (set cb))
  ∧ head (sorted (set cb)) = Some 0
  ∧ last (sorted (set cb)) = Some (len data)
  ∧ (∀ b, b ∈ sorted (set cb) →
       0 ≤ b ≤ len data ∧ (b = 0 ∨ b = len data ∨ occurs_at data sep b))
  ∧ len (sorted (set cb)) ≤ n + 1.
Proof.
  intros Hn Hadj. destruct (adjusted_ends _ _ _ _ Hadj) as [Hzero Hsize].
  assert (∀ b, b ∈ sorted (set cb) →
            0 ≤ b ≤ len data ∧ (b = 0 ∨ b = len data ∨ occurs_at data sep b))
    as Hel.
  { intros b Hb. rewrite elem_of_sorted_set in Hb. by eapply adjusted_elem. }
  split_and!; [apply sorted_set_strict| | |done|].
  - apply sorted_head; [apply sorted_set_strict|by apply elem_of_sorted_set|].
    intros x Hx. by destruct (Hel x Hx) as [[? _] _].
  - apply sorted_last; [apply sorted_set_strict|by apply elem_of_sorted_set|].
    intros x Hx. by destruct (Hel x Hx) as [[_ ?] _].
  - pose proof (length_sorted_set cb). destruct Hadj as [Hlen _]. arith.
Qed.

Lemma nearest_occurrence_Some data sep g q :
  nearest_occurrence data sep g = Some q →
  g ≤ q ∧ occurs_at data sep q ∧ ∀ q', g ≤ q' < q → ¬ occurs_at data sep q'.
Proof.
  unfold nearest_occurrence. intros ([k q0] & Hfind & ->)%fmap_Some.
  apply list_find_Some in Hfind as (Hk & Hocc & Hmin). simpl.
  apply lookup_seqZ in Hk as [-> Hk]. split_and!; [lia|done|].
  intros q' Hq'. apply (Hmin (Z.to_nat (q' - g))); [|lia].
  rewrite lookup_seqZ_lt by lia. f_equal. lia.
Qed.

(** A landing point is never before the guess. *)
Lemma lands_ge data sep p r :
  0 ≤ p ≤ len data → lands data sep (len data) p r → p ≤ r.
Proof.
  intros Hp Hl. apply lands_inv in Hl as [->|(j & Hj & Hlo & _)]; [lia| |lia].
  pose proof mini_chunk_size_eq. nia.
Qed.

(** The guesses never pass the end of the file. *)
Lemma guess_range fs n i :
  0 ≤ fs → 1 ≤ n → 0 ≤ i ≤ n → 0 ≤ i * (fs `div` n) ≤ fs.
Proof.
  intros Hfs Hn Hi.
  assert (0 ≤ fs `div` n) by (apply Z.div_pos; lia).
  pose proof (Z.mul_div_le fs n ltac:(lia)). nia.
Qed.
End further.

(** X1: with [desired_num_chunks = 0] the call raises [ZeroDivisionError];
    by then it has measured the file and put the handle back at offset 0,
    and it has read nothing. *)
Theorem zero_chunks_division_error (file : BinaryIO) (sep : bytes) :
  find_chunk_boundaries 0 (PyBytes sep) file
  = (Raise ZeroDivisionError, rewound file).
Proof. unfold find_chunk_boundaries. apply find_chunk_boundaries_zero. Qed.

(** X2: with a negative [desired_num_chunks] the list of guesses is empty
    and the assignment to its last entry raises [IndexError], again after
    the file has been measured and before any read. *)
Theorem negative_chunks_index_error (file : BinaryIO) (n : Z) (sep : bytes) :
  n < 0 →
  find_chunk_boundaries n (PyBytes sep) file = (Raise IndexError, rewound file).
Proof.
  intros Hn. unfold find_chunk_boundaries.
  by apply find_chunk_boundaries_negative.
Qed.

Lemma negative_chunks_index_error_witness :
  -3 < 0
  ∧ find_chunk_boundaries (-3) (PyBytes [X]) (open hundred)
    = (Raise IndexError, rewound (open hundred)).
Proof.
  assert (-3 < 0) as H1 by lia.
  exact (conj H1 (negative_chunks_index_error (open hundred) (-3) [X] H1)).
Defined.

(** X3: when the separator occurs nowhere in a non-empty file, every
    interior boundary runs to the end and the call returns [0, file size],
    whatever number of chunks was asked for. *)
Theorem separator_absent (file : BinaryIO) (n : Z) (sep : bytes) :
  0 < file_length file → 1 ≤ n → occurrences (contents file) sep = [] →
  (find_chunk_boundaries n (PyBytes sep) file).1
  = Return [0; file_length file].
Proof.
  intros Hsize Hn Hnone.
  destruct (find_chunk_boundaries_run n sep file Hn) as (cb & file' & -> & _ & Hadj).
  simpl. f_equal.
  destruct (adjusted_ends _ _ _ _ Hadj) as [Hzero Hlast].
  apply sorted_set_unique; [repeat constructor; lia|].
  intros x. rewrite elem_of_cons, list_elem_of_singleton. split.
  - by intros [->| ->].
  - intros Hx. destruct (adjusted_elem _ _ _ _ _ Hn Hadj Hx) as [_ [?|[?|Hocc]]];
      [by left|by right|].
    apply elem_of_occurrences in Hocc. rewrite Hnone in Hocc.
    by apply elem_of_nil in Hocc.
Qed.

Lemma separator_absent_witness :
  0 < file_length (open plain) ∧ 1 ≤ 4 ∧ occurrences (contents (open plain)) [X] = []
  ∧ (find_chunk_boundaries 4 (PyBytes [X]) (open plain)).1
    = Return [0; file_length (open plain)].
Proof.
  assert (0 < file_length (open plain)) as H1 by (vm_compute; reflexivity).
  assert (1 ≤ 4) as H2 by lia.
  assert (occurrences (contents (open plain)) [X] = []) as H3
    by (vm_compute; reflexivity).
  exact (conj H1 (conj H2 (conj H3 (separator_absent (open plain) 4 [X] H1 H2 H3)))).
Defined.

(** X4: when the nearest occurrence of the separator at or after an
    interior guess ends within the first window read from that guess, that
    occurrence is one of the returned boundaries. *)
Theorem nearest_occurrence_returned (file : BinaryIO) (n i q : Z) (sep : bytes) :
  1 ≤ n → sep ≠ [] → 1 ≤ i < n →
  nearest_occurrence (contents file) sep (i * (file_length file `div` n)) = Some q →
  q + len sep ≤ i * (file_length file `div` n) + mini_chunk_size →
  ∃ bs file',
    find_chunk_boundaries n (PyBytes sep) file = (Return bs, file') ∧ q ∈ bs.
Proof.
  intros Hn Hne Hi Hnear Hfit.
  destruct (find_chunk_boundaries_run n sep file Hn) as (cb & file' & Hrun & _ & Hadj).
  exists (sorted (set cb)), file'. split; [done|].
  apply elem_of_sorted_set.
  apply nearest_occurrence_Some in Hnear as (Hq & Hocc & Hmin).
  destruct Hadj as (_ & _ & _ & Hint).
  destruct (Hint i Hi) as (r & Hr & Hl).
  assert (0 ≤ i * (file_length file `div` n)) as Hg
    by (apply (guess_range (file_length file) n i); arith).
  assert (r = q) as ->.
  { eapply lands_det; [done|]. by apply lands_in_first_window. }
  by eapply list_elem_of_lookup_2.
Qed.

Lemma nearest_occurrence_returned_witness :
  1 ≤ 4 ∧ [X] ≠ [] ∧ 1 ≤ 1 < 4
  ∧ nearest_occurrence (contents (open hundred)) [X]
      (1 * (file_length (open hundred) `div` 4)) = Some 51
  ∧ 51 + len [X] ≤ 1 * (file_length (open hundred) `div` 4) + mini_chunk_size
  ∧ ∃ bs file',
      find_chunk_boundaries 4 (PyBytes [X]) (open hundred) = (Return bs, file')
      ∧ 51 ∈ bs.
Proof.
  assert (1 ≤ 4) as H1 by lia.
  assert ([X] ≠ []) as H2 by discriminate.
  assert (1 ≤ 1 < 4) as H3 by lia.
  assert (nearest_occurrence (contents (open hundred)) [X]
            (1 * (file_length (open hundred) `div` 4)) = Some 51) as H4
    by (vm_compute; reflexivity).
  assert (51 + len [X] ≤ 1 * (file_length (open hundred) `div` 4) + mini_chunk_size)
    as H5 by (vm_compute; discriminate).
  exact (conj H1 (conj H2 (conj H3 (conj H4 (conj H5
           (nearest_occurrence_returned (open hundred) 4 1 51 [X] H1 H2 H3 H4 H5)))))).
Defined.

(** X5: the scan never goes backward: every returned boundary other than 0
    is at least [file_size // desired_num_chunks], the first guess, so the
    first chunk is never shorter than an even share. *)
Theorem first_chunk_even_share (file : BinaryIO) (n : Z) (sep : bytes) :
  1 ≤ n →
  ∃ bs file',
    find_chunk_boundaries n (PyBytes sep) file = (Return bs, file')
    ∧ ∀ b, b ∈ bs → b = 0 ∨ file_length file `div` n ≤ b.
Proof.
  intros Hn.
  destruct (find_chunk_boundaries_run n sep file Hn) as (cb & file' & Hrun & _ & Hadj).
  exists (sorted (set cb)), file'. split; [done|].
  intros b Hb. rewrite elem_of_sorted_set in Hb.
  destruct Hadj as (Hlen & Hz & Hl & Hint).
  apply list_elem_of_lookup_1 in Hb as [k Hk].
  pose proof (lookup_lt_Some _ _ _ Hk) as Hklt.
  assert (0 ≤ file_length file) as Hfs by arith.
  destruct (decide (k = 0%nat)) as [->|Hk0]; [left; congruence|]. right.
  destruct (decide (k = Z.to_nat n)) as [->|Hkn].
  { assert (b = file_length file) as -> by (unfold file_length, len in *; congruence).
    pose proof (guess_range (file_length file) n 1 Hfs Hn). lia. }
  destruct (Hint (Z.of_nat k)) as (r & Hr & Hla); [arith|].
  rewrite Nat2Z.id in Hr. assert (r = b) as -> by congruence.
  apply lands_ge in Hla.
  - pose proof (guess_range (file_length file) n 1 Hfs Hn).
    assert (0 ≤ len (contents file) `div` n) by (apply Z.div_pos; arith).
    unfold file_length, len in *. nia.
  - apply (guess_range (file_length file) n (Z.of_nat k)); arith.
Qed.

Lemma first_chunk_even_share_witness :
  1 ≤ 4
  ∧ ∃ bs file',
      find_chunk_boundaries 4 (PyBytes [X]) (open hundred) = (Return bs, file')
      ∧ ∀ b, b ∈ bs → b = 0 ∨ file_length (open hundred) `div` 4 ≤ b.
Proof.
  assert (1 ≤ 4) as H1 by lia.
  exact (conj H1 (first_chunk_even_share (open hundred) 4 [X] H1)).
Defined.

(** X6: with more chunks requested than the file has bytes every interior
    guess is offset 0, all of them land on the same offset, and the call
    returns at most three boundaries. *)
Theorem more_chunks_than_bytes (file : BinaryIO) (n : Z) (sep : bytes) :
  file_length file < n →
  ∃ bs file',
    find_chunk_boundaries n (PyBytes sep) file = (Return bs, file')
    ∧ len bs ≤ 3.
Proof.
  intros Hbig. assert (0 ≤ file_length file) as Hfs by arith.
  assert (1 ≤ n) as Hn by lia.
  destruct (find_chunk_boundaries_run n sep file Hn) as (cb & file' & Hrun & _ & Hadj).
  exists (sorted (set cb)), file'. split; [done|].
  destruct Hadj as (Hlen & Hz & Hl & Hint).
  assert (∃ r0, ∀ x, x ∈ cb → x ∈ [0; r0; file_length file]) as [r0 Hsub].
  { exists (default 0 (cb !! 1%nat)). intros x [k Hk]%list_elem_of_lookup_1.
    pose proof (lookup_lt_Some _ _ _ Hk) as Hklt.
    destruct (decide (k = 0%nat)) as [->|Hk0].
    { assert (x = 0) as -> by congruence. apply list_elem_of_here. }
    destruct (decide (k = Z.to_nat n)) as [->|Hkn].
    { assert (x = file_length file) as ->
        by (unfold file_length, len in *; congruence).
      do 2 apply list_elem_of_further. apply list_elem_of_here. }
    destruct (Hint (Z.of_nat k)) as (r & Hr & Hla); [arith|].
    destruct (Hint 1) as (r1 & Hr1 & Hla1); [arith|].
    rewrite Nat2Z.id in Hr. assert (r = x) as -> by congruence.
    change (Z.to_nat 1) with 1%nat in Hr1. rewrite Hr1. simpl.
    change (len (contents file)) with (file_length file) in Hla, Hla1.
    rewrite Z.div_small, Z.mul_0_r in Hla, Hla1 by lia.
    rewrite (lands_det _ _ _ _ _ _ Hla Hla1).
    apply list_elem_of_further, list_elem_of_here. }
  assert (sorted (set cb) ⊆+ [0; r0; file_length file]) as Hle.
  { apply NoDup_submseteq; [apply NoDup_sorted_set|].
    intros x Hx. rewrite elem_of_sorted_set in Hx. by apply Hsub. }
  apply submseteq_length in Hle. simpl in Hle. arith.
Qed.

Lemma more_chunks_than_bytes_witness :
  file_length (open hundred) < 300
  ∧ ∃ bs file',
      find_chunk_boundaries 300 (PyBytes [X]) (open hundred) = (Return bs, file')
      ∧ len bs ≤ 3.
Proof.
  assert (file_length (open hundred) < 300) as H1 by (vm_compute; reflexivity).
  exact (conj H1 (more_chunks_than_bytes (open hundred) 300 [X] H1)).
Defined.

(** X7: an empty separator is found at relative offset 0 of every window,
    so no guess moves: the call returns the sorted set of the initial
    guesses. *)
Theorem empty_separator_keeps_guesses (file : BinaryIO) (n : Z) :
  1 ≤ n →
  ∃ guesses,
    (initial_guesses (file_length file) n (rewound file)).1 = Return guesses
    ∧ (find_chunk_boundaries n (PyBytes []) file).1
      = Return (sorted (set guesses)).
Proof.
  intros Hn. eexists. rewrite initial_guesses_run by done. split; [done|].
  destruct (find_chunk_boundaries_run n [] file Hn) as (cb & file' & -> & _ & Hadj).
  simpl. do 3 f_equal. apply (adjusted_det (contents file) [] n); [done|done|].
  assert (0 ≤ file_length file) as Hfs by arith.
  split_and!.
  - unfold len. rewrite length_insert, length_fmap, length_seqZ. lia.
  - change 0%nat with (Z.to_nat 0).
    by rewrite (initial_guesses_interior _ n 0) by lia.
  - by apply initial_guesses_last; lia.
  - intros i Hi. eexists. split; [apply initial_guesses_interior; lia|].
    change (len (contents file)) with (file_length file).
    set (g := i * (file_length file `div` n)).
    pose proof (guess_range (file_length file) n i Hfs Hn ltac:(lia)) as Hg.
    fold g in Hg.
    destruct (decide (g < file_length file)) as [Hlt|Hge].
    + assert (lands (contents file) [] (file_length file) g
                (g + find (window (contents file) g) [])) as Hla.
      { apply lands_found; [by apply window_nonempty; [lia|]|].
        by rewrite find_nil. }
      by rewrite find_nil, Z.add_0_r in Hla.
    + assert (g = file_length file) as -> by lia.
      apply lands_eof.
      destruct (decide (window (contents file) (file_length file) = [])) as [|Hw];
        [done|].
      apply window_nonempty in Hw; arith.
Qed.

Lemma empty_separator_keeps_guesses_witness :
  1 ≤ 4
  ∧ ∃ guesses,
      (initial_guesses (file_length (open hundred)) 4 (rewound (open hundred))).1
      = Return guesses
      ∧ (find_chunk_boundaries 4 (PyBytes []) (open hundred)).1
        = Return (sorted (set guesses)).
Proof.
  assert (1 ≤ 4) as H1 by lia.
  exact (conj H1 (empty_separator_keeps_guesses (open hundred) 4 H1)).
Defined.

(** * The usage loop *)

Section slices.
Implicit Types (data sub : bytes) (bs : list Z).

Lemma slice_app data a b c :
  0 ≤ a ≤ b → b ≤ c → slice data a b ++ slice data b c = slice data a c.
Proof.
  intros Hab Hbc. unfold slice.
  replace (Z.to_nat b) with (Z.to_nat a + Z.to_nat (b - a))%nat by lia.
  rewrite <- drop_drop, take_take_drop. f_equal. lia.
Qed.

Lemma slice_all data : slice data 0 (len data) = data.
Proof.
  unfold slice, len. rewrite Z.sub_0_r, Nat2Z.id. simpl. by rewrite take_ge.
Qed.

Lemma slice_nonempty data a b :
  0 ≤ a < b → b ≤ len data → slice data a b ≠ [].
Proof.
  intros Hab Hb Hnil. apply (f_equal length) in Hnil.
  unfold slice in Hnil. rewrite length_take, length_drop in Hnil.
  simpl in Hnil. arith.
Qed.

Lemma pieces_cons data x y l :
  pieces data (x :: y :: l) = slice data x y :: pieces data (y :: l).
Proof.
  unfold pieces, all_but_last, from_second. simpl.
  by rewrite Nat.sub_0_r.
Qed.

Lemma consecutive_lookup bs i (p : Z * Z) :
  zip (all_but_last bs) (from_second bs) !! i = Some p
  ↔ bs !! i = Some p.1 ∧ bs !! S i = Some p.2.
Proof.
  unfold all_but_last, from_second.
  rewrite lookup_zip_with_Some. setoid_rewrite lookup_take_Some.
  setoid_rewrite lookup_drop. split.
  - by intros (x & y & -> & [Hx _] & Hy).
  - intros [Hx Hy]. exists p.1, p.2. split_and!; [by destruct p|done| |done].
    apply lookup_lt_Some in Hy. lia.
Qed.

Lemma sorted_lookup_lt bs i j x y :
  StronglySorted Z.lt bs → bs !! i = Some x → bs !! j = Some y → (i < j)%nat →
  x < y.
Proof.
  intros Hs. revert i j. induction Hs as [|b bs Hs IH Hb]; intros i j Hi Hj Hij.
  { by rewrite lookup_nil in Hi. }
  destruct j as [|j]; [lia|]. simpl in Hj. destruct i as [|i].
  - injection Hi as <-. rewrite Forall_forall in Hb.
    by eapply Hb, list_elem_of_lookup_2.
  - simpl in Hi. apply (IH i j); [done|done|lia].
Qed.

(** The pieces between the boundaries of a sorted list put together give
    the bytes from its first to its last boundary. *)
Lemma concat_pieces data bs b0 bk :
  StronglySorted Z.lt bs → head bs = Some b0 → last bs = Some bk → 0 ≤ b0 →
  concat (pieces data bs) = slice data b0 bk ∧ b0 ≤ bk.
Proof.
  intros Hs. revert b0. induction Hs as [|x l Hs IH Hx]; intros b0 Hhd Hla H0.
  { done. }
  injection Hhd as ->. destruct l as [|y l].
  { injection Hla as ->. split; [|lia]. unfold slice.
    by rewrite Z.sub_diag. }
  rewrite last_cons_cons in Hla.
  rewrite Forall_forall in Hx. pose proof (Hx y (list_elem_of_here _ _)) as Hxy.
  destruct (IH y eq_refl Hla ltac:(lia)) as [Hcat Hle].
  rewrite pieces_cons. simpl. rewrite Hcat. split; [|lia].
  apply slice_app; lia.
Qed.

(** Two occurrences of a separator whose first byte is unique in it do not
    overlap. *)
Lemma occurrences_apart data sub a b :
  head_unique sub → occurs_at data sub a → occurs_at data sub b → a < b →
  a + len sub ≤ b.
Proof.
  intros Hu Ha Hb Hab. destruct sub as [|b0 rest]; [done|]. simpl in Hu.
  destruct (decide (a + len (b0 :: rest) ≤ b)) as [|Hov]; [done|].
  destruct Hu. unfold len in Hov. simpl in Hov.
  pose proof (occurs_at_length _ _ _ Ha) as [Ha0 _].
  apply occurs_at_head in Hb.
  destruct (lookup_lt_is_Some_2 rest (Z.to_nat (b - a) - 1)) as [x Hx]; [lia|].
  destruct Ha as [_ Hpre].
  apply (prefix_lookup_Some _ _ (S (Z.to_nat (b - a) - 1)) x) in Hpre; [|done].
  rewrite lookup_drop in Hpre.
  replace (Z.to_nat a + S (Z.to_nat (b - a) - 1))%nat with (Z.to_nat b) in Hpre
    by lia.
  assert (x = b0) as -> by congruence. by eapply list_elem_of_lookup_2.
Qed.
End slices.

Section usage_facts.
Context {str : Type} (decode : bytes → str).

(** Each turn of the loop seeks to [start] and reads the bytes up to
    [end]. *)
Lemma read_chunks_loop pairs chunks h :
  Forall (λ p : Z * Z, 0 ≤ p.1 ≤ p.2) pairs →
  ∃ h',
    for_each pairs
      (λ chunks '(start, end_),
         _ ← seek start SEEK_SET;
         data ← read (end_ - start);
         mret (chunks ++ [decode data]))
      chunks h
    = (Return (chunks ++ ((λ p, decode (slice (contents h) p.1 p.2)) <$> pairs)), h')
    ∧ contents h' = contents h.
Proof.
  intros Hpairs. revert chunks h.
  induction Hpairs as [|[s e] pairs Hse _ IH]; intros chunks h; simpl in *.
  { exists h. by rewrite app_nil_r. }
  erewrite bind_return; last first.
  { erewrite bind_return; last first.
    { unfold seek. by rewrite decide_False by lia. }
    erewrite bind_return; last first.
    { unfold read. by rewrite decide_False by lia. }
    reflexivity. }
  simpl. rewrite Z.add_0_l.
  match goal with |- context [for_each _ _ _ ?h1] =>
    destruct (IH (chunks ++ [decode (slice (contents h) s e)]) h1)
      as (h' & Hrun & Hc)
  end.
  exists h'. unfold slice in *. simpl in *. rewrite Hrun. split; [|done].
  by rewrite <- app_assoc.
Qed.
End usage_facts.

(** What the usage block reads: the pieces between the boundaries that
    [find_chunk_boundaries] returns. *)
Lemma usage_run (file : BinaryIO) (n : Z) :
  1 ≤ n →
  ∃ cb,
    adjusted (contents file) endoftext n cb
    ∧ ∀ (str : Type) (decode : bytes → str),
        (usage decode n file).1
        = Return (decode <$> pieces (contents file) (sorted (set cb))).
Proof.
  intros Hn.
  destruct (find_chunk_boundaries_run n endoftext file Hn)
    as (cb & file' & Hrun & Hc & Hadj).
  exists cb. split; [done|]. intros str decode.
  unfold usage. erewrite bind_return by done. unfold read_chunks.
  destruct (adjusted_sorted _ _ _ _ Hn Hadj) as (Hs & Hhd & _ & Hel & _).
  destruct (read_chunks_loop decode
              (zip (all_but_last (sorted (set cb))) (from_second (sorted (set cb))))
              [] file') as (h' & -> & _).
  { apply Forall_lookup. intros i p [Hi Hj]%consecutive_lookup.
    pose proof (sorted_lookup_lt _ _ _ _ _ Hs Hi Hj ltac:(lia)).
    apply list_elem_of_lookup_2, Hel in Hi. lia. }
  simpl. rewrite Hc. unfold pieces. by rewrite <- list_fmap_compose.
Qed.

(** X8: the chunks read by the usage loop, put end to end, are the whole
    file: nothing is read twice and nothing is left out. *)
Theorem chunks_cover_file (file : BinaryIO) (n : Z) :
  1 ≤ n →
  ∃ chunks,
    (∀ (str : Type) (decode : bytes → str),
       (usage decode n file).1 = Return (decode <$> chunks))
    ∧ concat chunks = contents file.
Proof.
  intros Hn. destruct (usage_run file n Hn) as (cb & Hadj & Hrun).
  exists (pieces (contents file) (sorted (set cb))). split; [done|].
  destruct (adjusted_sorted _ _ _ _ Hn Hadj) as (Hs & Hhd & Hla & _).
  destruct (concat_pieces (contents file) _ _ _ Hs Hhd Hla) as [-> _]; [done|].
  apply slice_all.
Qed.

Lemma chunks_cover_file_witness :
  1 ≤ 3
  ∧ ∃ chunks,
      (∀ (str : Type) (decode : bytes → str),
         (usage decode 3 (open corpus)).1 = Return (decode <$> chunks))
      ∧ concat chunks = contents (open corpus).
Proof.
  assert (1 ≤ 3) as H1 by lia.
  exact (conj H1 (chunks_cover_file (open corpus) 3 H1)).
Defined.

(** X9: the usage loop reads at most [num_processes] chunks, none of them
    empty, and at least one when the file is not empty. *)
Theorem chunks_count (file : BinaryIO) (n : Z) :
  1 ≤ n →
  ∃ chunks,
    (∀ (str : Type) (decode : bytes → str),
       (usage decode n file).1 = Return (decode <$> chunks))
    ∧ Forall (λ c, c ≠ []) chunks
    ∧ len chunks ≤ n
    ∧ (0 < file_length file → 1 ≤ len chunks).
Proof.
  intros Hn. destruct (usage_run file n Hn) as (cb & Hadj & Hrun).
  exists (pieces (contents file) (sorted (set cb))). split; [done|].
  destruct (adjusted_sorted _ _ _ _ Hn Hadj) as (Hs & Hhd & Hla & Hel & Hlen).
  assert (len (pieces (contents file) (sorted (set cb)))
          = len (sorted (set cb)) - 1) as Hpieces.
  { unfold pieces, len, all_but_last, from_second.
    rewrite length_fmap, length_zip, length_take, length_drop.
    rewrite head_lookup in Hhd. apply lookup_lt_Some in Hhd. lia. }
  split_and!.
  - apply Forall_lookup. intros i c Hc. unfold pieces in Hc.
    rewrite list_lookup_fmap in Hc.
    apply fmap_Some in Hc as (p & [Hi Hj]%consecutive_lookup & ->).
    pose proof (sorted_lookup_lt _ _ _ _ _ Hs Hi Hj ltac:(lia)).
    apply list_elem_of_lookup_2, Hel in Hi, Hj.
    apply slice_nonempty; lia.
  - lia.
  - intros Hsize. rewrite Hpieces.
    rewrite head_lookup in Hhd. rewrite last_lookup in Hla.
    destruct (sorted (set cb)) as [|b0 [|b1 l]]; [done| |unfold len; simpl; lia].
    simpl in Hhd, Hla. assert (b0 = 0) by congruence.
    assert (b0 = len (contents file)) by congruence. arith.
Qed.

Lemma chunks_count_witness :
  1 ≤ 3
  ∧ ∃ chunks,
      (∀ (str : Type) (decode : bytes → str),
         (usage decode 3 (open corpus)).1 = Return (decode <$> chunks))
      ∧ Forall (λ c, c ≠ []) chunks
      ∧ len chunks ≤ 3
      ∧ (0 < file_length (open corpus) → 1 ≤ len chunks).
Proof.
  assert (1 ≤ 3) as H1 by lia.
  exact (conj H1 (chunks_count (open corpus) 3 H1)).
Defined.

(** X10: in the usage loop every chunk after the first begins with the
    whole separator [<|endoftext|>]: it starts on an occurrence, and the
    next boundary cannot fall inside that occurrence. *)
Theorem chunks_start_with_separator (file : BinaryIO) (n : Z) :
  1 ≤ n →
  ∃ chunks,
    (∀ (str : Type) (decode : bytes → str),
       (usage decode n file).1 = Return (decode <$> chunks))
    ∧ ∀ (i : nat) c, (1 ≤ i)%nat → chunks !! i = Some c →
        endoftext `prefix_of` c.
Proof.
  intros Hn. destruct (usage_run file n Hn) as (cb & Hadj & Hrun).
  exists (pieces (contents file) (sorted (set cb))). split; [done|].
  destruct (adjusted_sorted _ _ _ _ Hn Hadj) as (Hs & Hhd & Hla & Hel & _).
  assert (head_unique endoftext) as Hu
    by (refine (bool_decide_unpack _ _); vm_compute; exact I).
  intros i c Hi Hc. unfold pieces in Hc. rewrite list_lookup_fmap in Hc.
  apply fmap_Some in Hc as ([b e] & [Hb He]%consecutive_lookup & ->).
  simpl in *. rewrite head_lookup in Hhd.
  pose proof (sorted_lookup_lt _ _ _ _ _ Hs Hhd Hb ltac:(lia)) as Hb0.
  pose proof (sorted_lookup_lt _ _ _ _ _ Hs Hb He ltac:(lia)) as Hbe.
  apply list_elem_of_lookup_2, Hel in Hb, He.
  destruct Hb as [Hbr [?|[?|Hocc]]]; [lia|lia|].
  assert (b + len endoftext ≤ e) as Hfit.
  { destruct He as [Her [?|[->|Hocc']]]; [lia| |].
    - by apply occurs_at_length in Hocc as [_ ?].
    - by eapply occurrences_apart. }
  unfold slice. apply prefix_of_take. split; [arith|by destruct Hocc].
Qed.

Lemma chunks_start_with_separator_witness :
  1 ≤ 3
  ∧ ∃ chunks,
      (∀ (str : Type) (decode : bytes → str),
         (usage decode 3 (open corpus)).1 = Return (decode <$> chunks))
      ∧ ∀ (i : nat) c, (1 ≤ i)%nat → chunks !! i = Some c →
          endoftext `prefix_of` c.
Proof.
  assert (1 ≤ 3) as H1 by lia.
  exact (conj H1 (chunks_start_with_separator (open corpus) 3 H1)).
Defined.
